(** * semacode: the Ruby DataMatrix encoder extension (ext/semacode.c)

    A shallow embedding of the symbol lifecycle (encode_string,
    semacode_free, semacode_init, semacode_encode) and of the views
    (semacode_grid, semacode_to_s and the accessors) over an explicit C heap,
    together with the properties of the specification that concern them.

    C objects live in a heap of blocks; a block is released by [free] and
    keeps its stale contents, so that a second release and a read through a
    dangling pointer are observable as faults.  The DataMatrix codec
    (iec16022init, iec16022ecc200) is the interface of iec16022ecc200.h and
    is taken as a parameter. *)

From stdpp Require Import gmap strings list fin_maps.
From Stdlib Require Import ZArith Ascii.

Open Scope Z_scope.

(** ** C integers and characters *)

Definition INT_MAX : Z := 2147483647.

(** The value of an [int] expression: two's complement wrap-around to 32 bits. *)
Definition wrap_int (z : Z) : Z := (z + 2 ^ 31) mod 2 ^ 32 - 2 ^ 31.

Definition char := ascii.
Definition NUL : char := Ascii.zero.
Definition SPACE : char := " "%char.

(** ** Pointers and the record of semacode.h *)

Definition ptr := N.
Definition NULL : ptr := 0%N.

Record semacode_t := mk_semacode {
  width : Z;
  height : Z;
  raw_encoded_length : Z;
  symbol_capacity : Z;
  ecc_bytes : Z;
  encoding : ptr;
  data : ptr
}.

(** Layout on an LP64 target: five ints at offsets 0, 4, 8, 12 and 16, four
    bytes of padding, then the two pointers at offsets 24 and 32. *)
Definition sizeof_semacode_t : Z := 40.
Definition sizeof_pointer : Z := 8.

(** [bzero(semacode, n)]: a field is cleared when its last byte lies within
    the first [n] bytes.  The two calls of the source pass 40 and 8, which cut
    no field in two. *)
Definition bzero_semacode (n : Z) (s : semacode_t) : semacode_t :=
  {| width := if 4 <=? n then 0 else width s;
     height := if 8 <=? n then 0 else height s;
     raw_encoded_length := if 12 <=? n then 0 else raw_encoded_length s;
     symbol_capacity := if 16 <=? n then 0 else symbol_capacity s;
     ecc_bytes := if 20 <=? n then 0 else ecc_bytes s;
     encoding := if 32 <=? n then NULL else encoding s;
     data := if 40 <=? n then NULL else data s |}.

Definition zero_semacode : semacode_t := mk_semacode 0 0 0 0 0 NULL NULL.

(** ** The heap *)

Inductive cell :=
  | Bytes (bs : list char)
  | Struct (s : semacode_t).

(** A released block stays in the heap with its last contents. *)
Inductive block :=
  | Live (c : cell)
  | Freed (c : cell).

(** One call of the codec, as the codec sees it: the size hints, the length
    it is given and the bytes at the message pointer. *)
Record ecc200_call := mk_call {
  call_W : Z;
  call_H : Z;
  call_barcodelen : Z;
  call_barcode : list char
}.

Record memory := mk_memory {
  heap : gmap N block;
  (** DATA_PTR of the Ruby T_DATA objects, by object id *)
  rdata : gmap N ptr;
  (** the pointers handed to [free], the most recent first *)
  released : list ptr;
  (** the calls of iec16022ecc200, the most recent first *)
  calls : list ecc200_call
}.

Definition set_heap (h : gmap N block) (m : memory) : memory :=
  mk_memory h (rdata m) (released m) (calls m).

Inductive fault :=
  | NullDeref
  | UseAfterFree (p : ptr)
  | DoubleFree (p : ptr)
  | InvalidFree (p : ptr)
  | WildPointer (p : ptr)
  | OutOfBounds (p : ptr) (i : Z).

(** Ruby exceptions raised by the extension or by the C API it calls. *)
Inductive exn :=
  | RuntimeError (msg : string)
  | ArgumentError (msg : string)
  | TypeError (msg : string).

(** A computation ends normally, with a Ruby exception, or in undefined
    behaviour; in each case the memory at that point is kept. *)
Inductive outcome (A : Type) :=
  | Ok (a : A) (m : memory)
  | Raise (e : exn) (m : memory)
  | Fault (f : fault) (m : memory).
Arguments Ok {A} a m.
Arguments Raise {A} e m.
Arguments Fault {A} f m.

Definition M (A : Type) : Type := memory -> outcome A.

Definition ret {A} (a : A) : M A := fun m => Ok a m.

Definition bind {A B} (c : M A) (k : A -> M B) : M B := fun m =>
  match c m with
  | Ok a m' => k a m'
  | Raise e m' => Raise e m'
  | Fault f m' => Fault f m'
  end.

Notation "'let*' x ':=' c 'in' k" := (bind c (fun x => k))
  (at level 10, x name, c at level 100, k at level 200).
Notation "c ';;;' k" := (bind c (fun _ => k))
  (at level 100, k at level 200, right associativity).

Definition rb_raise {A} (e : exn) : M A := fun m => Raise e m.
Definition undefined {A} (f : fault) : M A := fun m => Fault f m.

(** [malloc]: a block at an address that is neither NULL nor in use; released
    addresses are not handed out again. *)
Definition malloc (c : cell) : M ptr := fun m =>
  let p := fresh ({[NULL]} ∪ dom (heap m)) in
  Ok p (set_heap (<[p := Live c]> (heap m)) m).

(** [free]: nothing on NULL, a fault on a block already released. *)
Definition free (p : ptr) : M unit := fun m =>
  if decide (p = NULL) then Ok tt m
  else match heap m !! p with
       | Some (Live c) =>
           Ok tt (mk_memory (<[p := Freed c]> (heap m)) (rdata m)
                            (p :: released m) (calls m))
       | Some (Freed _) => Fault (DoubleFree p) m
       | None => Fault (InvalidFree p) m
       end.

Definition load (p : ptr) : M cell := fun m =>
  if decide (p = NULL) then Fault NullDeref m
  else match heap m !! p with
       | Some (Live c) => Ok c m
       | Some (Freed _) => Fault (UseAfterFree p) m
       | None => Fault (WildPointer p) m
       end.

Definition store (p : ptr) (c : cell) : M unit := fun m =>
  if decide (p = NULL) then Fault NullDeref m
  else match heap m !! p with
       | Some (Live _) => Ok tt (set_heap (<[p := Live c]> (heap m)) m)
       | Some (Freed _) => Fault (UseAfterFree p) m
       | None => Fault (WildPointer p) m
       end.

Definition load_struct (p : ptr) : M semacode_t :=
  let* c := load p in
  match c with
  | Struct s => ret s
  | Bytes _ => undefined (WildPointer p)
  end.

Definition load_bytes (p : ptr) : M (list char) :=
  let* c := load p in
  match c with
  | Bytes bs => ret bs
  | Struct _ => undefined (WildPointer p)
  end.

(** [p[i]] for a [char *p]. *)
Definition load_char (p : ptr) (i : Z) : M char :=
  let* bs := load_bytes p in
  if decide (0 <= i) then
    match bs !! Z.to_nat i with
    | Some c => ret c
    | None => undefined (OutOfBounds p i)
    end
  else undefined (OutOfBounds p i).

Definition store_struct (p : ptr) (s : semacode_t) : M unit :=
  let* _ := load_struct p in store p (Struct s).

(** ** C strings *)

(** The index of the first NUL of a buffer, if it holds one. *)
Fixpoint strlen (bs : list char) : option nat :=
  match bs with
  | [] => None
  | c :: rest => if decide (c = NUL) then Some O else S <$> strlen rest
  end.

(** [strcat(dst, src)]: [src] is written over the terminator of [dst] and a
    new terminator after it; running off the block is a fault. *)
Definition strcat (dst : ptr) (src : list char) : M unit :=
  let* bs := load_bytes dst in
  match strlen bs with
  | None => undefined (OutOfBounds dst (Z.of_nat (length bs)))
  | Some k =>
      if decide (k + length src < length bs)%nat then
        store dst (Bytes (take k bs ++ src ++ NUL :: drop (k + length src + 1) bs))
      else undefined (OutOfBounds dst (Z.of_nat (length bs)))
  end.

(** ** Ruby values *)

(** A Ruby String: its recorded length and the buffer RSTRING_PTR points to. *)
Record rstring := mk_rstring { rs_len : Z; rs_ptr : ptr }.

(** The [message] argument: a String, or another object, which may answer
    [to_s] and may have a [to_str] method.  The method is Ruby code: calling
    it is a computation, which may raise or change the memory, and its result
    is a String or something else. *)
Inductive message_t :=
  | T_STRING (s : rstring)
  | T_OBJECT (responds_to_s : bool) (to_str : option (M (option rstring))).

(** The values the extension returns. *)
#[warnings="-register-all"]
Inductive VALUE :=
  | Qnil
  | Qtrue
  | Qfalse
  | Fixnum (n : Z)
  | Array (vs : list VALUE)
  | Str (bs : list char)
  | Object (id : N).

Definition rb_respond_to_to_s (message : message_t) : bool :=
  match message with
  | T_STRING _ => true
  | T_OBJECT r _ => r
  end.

(** [rb_str_to_str] of the Ruby C API: a TypeError without a [to_str]
    method; else the method is called, and its result must be a String. *)
Definition rb_str_to_str (to_str : option (M (option rstring))) : M rstring :=
  match to_str with
  | None => rb_raise (TypeError "can't convert into String")
  | Some call =>
      let* v := call in
      match v with
      | Some s => ret s
      | None => rb_raise (TypeError "can't convert to String")
      end
  end.

(** RB_STRING_VALUE of semacode.h: a String as it is; anything else goes
    through rb_str_to_str and the String is stored back into the variable
    [message], which is returned with the String. *)
Definition RB_STRING_VALUE (message : message_t) : M (rstring * message_t) :=
  match message with
  | T_STRING s => ret (s, message)
  | T_OBJECT _ to_str =>
      let* s := rb_str_to_str to_str in ret (s, T_STRING s)
  end.

Definition StringValueLen (message : message_t) : M (Z * message_t) :=
  let* sv := RB_STRING_VALUE message in ret (rs_len sv.1, sv.2).

Definition StringValuePtr (message : message_t) : M (ptr * message_t) :=
  let* sv := RB_STRING_VALUE message in ret (rs_ptr sv.1, sv.2).

(** [rb_ary_new2] of the Ruby C API: an ArgumentError on a negative
    capacity, else an empty array. *)
Definition rb_ary_new2 (capa : Z) : M (list VALUE) :=
  if decide (capa < 0) then
    rb_raise (ArgumentError "negative array size (or size too big)")
  else ret [].

(** [rb_str_new2] of the Ruby C API (string.c): an ArgumentError on NULL, else
    a String of the bytes before the terminator. *)
Definition rb_str_new2 (p : ptr) : M VALUE :=
  if decide (p = NULL) then rb_raise (ArgumentError "NULL pointer given")
  else
    let* bs := load_bytes p in
    match strlen bs with
    | Some k => ret (Str (take k bs))
    | None => undefined (OutOfBounds p (Z.of_nat (length bs)))
    end.

(** [Data_Get_Struct]: the DATA_PTR of a T_DATA object. *)
Definition Data_Get_Struct (self : N) : M ptr := fun m =>
  match rdata m !! self with
  | Some p => Ok p m
  | None => Raise (TypeError "wrong argument type") m
  end.

Definition set_DATA_PTR (self : N) (p : ptr) : M unit := fun m =>
  Ok tt (mk_memory (heap m) (<[self := p]> (rdata m)) (released m) (calls m)).

(** ** The codec of iec16022ecc200.h *)

(** What a successful iec16022ecc200 hands back: the grid it returns and the
    values it writes through its pointer arguments. *)
Record ecc200_out := mk_out {
  out_grid : list char;
  out_W : Z;
  out_H : Z;
  out_encoding : list char;
  out_len : Z;
  out_max : Z;
  out_ecc : Z
}.

(** The two functions of iec16022ecc200.h that the extension calls.  Their
    source is not part of this development: they are parameters, and every
    property below holds for any instance. *)
Class Codec := {
  (** the size chosen for a message, from the current [*Wptr] and [*Hptr] *)
  iec16022init : Z -> Z -> list char -> Z * Z;
  (** the encoding for the hints, the length and the message, or failure *)
  iec16022ecc200 : Z -> Z -> Z -> list char -> option ecc200_out
}.

Section Encoder.
Context `{Codec}.

(** [iec16022init(&semacode->width, &semacode->height, message)]. *)
Definition call_iec16022init (semacode message : ptr) : M unit :=
  let* s := load_struct semacode in
  let* msg := load_bytes message in
  let wh := iec16022init (width s) (height s) msg in
  store_struct semacode
    (mk_semacode wh.1 wh.2 (raw_encoded_length s) (symbol_capacity s)
                 (ecc_bytes s) (encoding s) (data s)).

Definition log_call (c : ecc200_call) : M unit := fun m =>
  Ok tt (mk_memory (heap m) (rdata m) (released m) (c :: calls m)).

(** Modelled from the spec: how iec16022ecc200, whose source is not here,
    hands back its results (the contract of section 6).  The call is
    [iec16022ecc200(&semacode->width, &semacode->height, &semacode->encoding,
    barcodelen, message, &semacode->raw_encoded_length,
    &semacode->symbol_capacity, &semacode->ecc_bytes)]: on success the grid and
    the codewords are fresh blocks and the out-parameters are written; on
    failure 0 is returned and nothing is written. *)
Definition call_iec16022ecc200 (semacode : ptr) (barcodelen : Z) (message : ptr)
  : M ptr :=
  let* s := load_struct semacode in
  let* msg := load_bytes message in
  log_call (mk_call (width s) (height s) barcodelen msg) ;;;
  match iec16022ecc200 (width s) (height s) barcodelen msg with
  | None => ret NULL
  | Some o =>
      let* grid := malloc (Bytes (out_grid o)) in
      let* enc := malloc (Bytes (out_encoding o)) in
      store_struct semacode
        (mk_semacode (out_W o) (out_H o) (out_len o) (out_max o) (out_ecc o)
                     enc (data s)) ;;;
      ret grid
  end.

(** ** encode_string *)

Definition encode_string (semacode : ptr) (message_length : Z) (message : ptr)
  : M ptr :=
  (* avoid obvious bad cases *)
  if decide (semacode = NULL \/ message = NULL \/ message_length < 1) then ret NULL
  else
    (* deallocate if exists already *)
    let* s := load_struct semacode in
    (if decide (data s <> NULL) then free (data s) else ret tt) ;;;
    let* s := load_struct semacode in
    (if decide (encoding s <> NULL) then free (encoding s) else ret tt) ;;;
    let* s := load_struct semacode in
    store_struct semacode (bzero_semacode sizeof_semacode_t s) ;;;
    (* work around encoding bug by appending an extra character *)
    strcat message [SPACE] ;;;
    let message_length := wrap_int (message_length + 1) in
    (* choose the best grid that will hold our message *)
    call_iec16022init semacode message ;;;
    (* encode the actual data *)
    let* grid := call_iec16022ecc200 semacode message_length message in
    let* s := load_struct semacode in
    store_struct semacode
      (mk_semacode (width s) (height s) (raw_encoded_length s)
                   (symbol_capacity s) (ecc_bytes s) (encoding s) grid) ;;;
    ret semacode.

End Encoder.

(** ** Allocation and release of the store *)

(** The [dfree] function of the T_DATA object.  The [if] guards only the
    release of [encoding]; [sizeof(semacode)] is the size of the pointer. *)
Definition semacode_free (semacode : ptr) : M unit :=
  if decide (semacode <> NULL) then
    let* s := load_struct semacode in
    (if decide (data s <> NULL) then free (encoding s) else ret tt) ;;;
    let* s := load_struct semacode in
    free (data s) ;;;
    (* zero before freeing *)
    let* s := load_struct semacode in
    store_struct semacode (bzero_semacode sizeof_pointer s) ;;;
    free semacode
  else ret tt.

(** [Data_Make_Struct]: a zeroed semacode_t wrapped in a new T_DATA object. *)
Definition semacode_allocate : M N :=
  let* semacode := malloc (Struct zero_semacode) in
  fun m =>
    let self := fresh (dom (rdata m)) in
    Ok self (mk_memory (heap m) (<[self := semacode]> (rdata m))
                       (released m) (calls m)).

Section Methods.
Context `{Codec}.

(** The two conversion macros in the arguments of encode_string work on the
    same variable: the one evaluated first converts [message] and stores the
    String, the other finds that String, so [to_str] runs once in either
    order. *)
Definition semacode_init (self : N) (message : message_t) : M VALUE :=
  if negb (rb_respond_to_to_s message) then
    rb_raise (RuntimeError "target must respond to 'to_s'")
  else
    let* semacode := Data_Get_Struct self in
    let* len := StringValueLen message in
    let* p := StringValuePtr len.2 in
    encode_string semacode (wrap_int len.1) p.1 ;;;
    ret (Object self).

End Methods.

(** ** The views *)

Definition Qbool (c : char) : VALUE :=
  if decide (c = NUL) then Qfalse else Qtrue.

(** The loop [for (x = 0; x < w; x++)] of semacode_grid, with [n] iterations
    left, pushing onto [ary]. *)
Fixpoint grid_row (bits : ptr) (w y : Z) (n : nat) (x : Z) (ary : list VALUE)
  : M (list VALUE) :=
  match n with
  | O => ret ary
  | S n' =>
      let* c := load_char bits (wrap_int (wrap_int (y * w) + x)) in
      grid_row bits w y n' (wrap_int (x + 1)) (ary ++ [Qbool c])
  end.

(** The loop [for (y = h - 1; y >= 0; y--)]: [n] is the number of rows left,
    the next row is [y = n - 1]; it starts from [n = (h - 1) + 1] rows. *)
Fixpoint grid_rows (bits : ptr) (w : Z) (n : nat) (acc : list VALUE)
  : M (list VALUE) :=
  match n with
  | O => ret acc
  | S y =>
      let* ary := rb_ary_new2 w in
      let* ary := grid_row bits w (Z.of_nat y) (Z.to_nat w) 0 ary in
      grid_rows bits w y (acc ++ [Array ary])
  end.

Definition semacode_grid (semacode : ptr) : M VALUE :=
  let* s := load_struct semacode in
  let w := width s in
  let h := height s in
  let* ary := rb_ary_new2 h in
  let* rows := grid_rows (data s) w (Z.to_nat (wrap_int (h - 1) + 1)) ary in
  ret (Array rows).

Definition digit (c : char) : char :=
  if decide (c = NUL) then "0"%char else "1"%char.

Fixpoint to_s_row (bits : ptr) (w y : Z) (n : nat) (x : Z) (str : list char)
  : M (list char) :=
  match n with
  | O => ret str
  | S n' =>
      let* c := load_char bits (wrap_int (wrap_int (y * w) + x)) in
      to_s_row bits w y n' (wrap_int (x + 1)) (str ++ [digit c])
  end.

Fixpoint to_s_rows (bits : ptr) (w : Z) (n : nat) (str : list char)
  : M (list char) :=
  match n with
  | O => ret str
  | S y =>
      let* str := to_s_row bits w (Z.of_nat y) (Z.to_nat w) 0 str in
      to_s_rows bits w y (str ++ [","%char])
  end.

Definition semacode_to_s (self : N) : M VALUE :=
  let* semacode := Data_Get_Struct self in
  if decide (semacode = NULL) then ret Qnil
  else
    let* s := load_struct semacode in
    if decide (data s = NULL) then ret Qnil
    else
      let w := width s in
      let h := height s in
      let* str := to_s_rows (data s) w (Z.to_nat (wrap_int (h - 1) + 1)) [] in
      ret (Str str).

Section Encode.
Context `{Codec}.

(** The statement [semacode->data == NULL;] after the release is a comparison
    without effect: the field keeps the released pointer.  The grid is built
    from the local pointer, whatever encode_string returned. *)
Definition semacode_encode (self : N) (message : message_t) : M VALUE :=
  if negb (rb_respond_to_to_s message) then
    rb_raise (RuntimeError "target must respond to 'to_s'")
  else
    let* semacode := Data_Get_Struct self in
    (* free previous string if that exists *)
    let* s := load_struct semacode in
    (if decide (data s <> NULL) then free (data s) else ret tt) ;;;
    (* do a new encoding *)
    let* len := StringValueLen message in
    let* p := StringValuePtr len.2 in
    let* r := encode_string semacode (wrap_int len.1) p.1 in
    set_DATA_PTR self r ;;;
    semacode_grid semacode.

End Encode.

Definition semacode_data (self : N) : M VALUE :=
  let* semacode := Data_Get_Struct self in
  let* s := load_struct semacode in
  if decide (data s = NULL) then ret Qnil
  else semacode_grid semacode.

Definition semacode_encoded (self : N) : M VALUE :=
  let* semacode := Data_Get_Struct self in
  let* s := load_struct semacode in
  rb_str_new2 (encoding s).

(** The integer accessors: [INT2FIX] of a field. *)
Definition int_accessor (field : semacode_t -> Z) (self : N) : M VALUE :=
  let* semacode := Data_Get_Struct self in
  let* s := load_struct semacode in
  ret (Fixnum (field s)).

Definition semacode_width := int_accessor width.
Definition semacode_height := int_accessor height.
Definition semacode_length :=
  int_accessor (fun s => wrap_int (height s * width s)).
Definition semacode_raw_encoded_length := int_accessor raw_encoded_length.
Definition semacode_symbol_size := int_accessor symbol_capacity.
Definition semacode_ecc_bytes := int_accessor ecc_bytes.

(** ** Encoded stores and the shape of the views *)

(** The encoded state of the store behind [self]: the record is live, its
    [data] buffer is live and holds [width * height] modules, row-major. *)
Record encoded (m : memory) (self : N) (semacode : ptr) (s : semacode_t)
    (bits : list char) : Prop := mk_encoded {
  enc_self : rdata m !! self = Some semacode;
  enc_semacode : semacode <> NULL;
  enc_struct : heap m !! semacode = Some (Live (Struct s));
  enc_data : data s <> NULL;
  enc_bits : heap m !! data s = Some (Live (Bytes bits));
  enc_width : 0 < width s;
  enc_height : 0 < height s;
  enc_size : Z.of_nat (length bits) = width s * height s;
  enc_int : width s * height s <= INT_MAX
}.

(** Row [y] of the internal buffer: the modules at [y * w + x], [x < w]. *)
Definition bits_row (bits : list char) (w y : nat) : list char :=
  take w (drop (y * w) bits).

(** The internal rows in the order the views emit them: [n - 1] first. *)
Definition top_down (n : nat) : list nat := rev (seq 0 n).

(** The groups of a bit string: the runs of characters ended by a comma. *)
Fixpoint groups_of (str cur : list char) : list (list char) :=
  match str with
  | [] => match cur with [] => [] | _ => [cur] end
  | c :: rest =>
      if decide (c = ","%char) then cur :: groups_of rest []
      else groups_of rest (cur ++ [c])
  end.

(** ** Stores and messages of the lifecycle *)

(** A store whose record is live and whose two buffers are each absent or a
    live block of its own. *)
Record store_ok (m : memory) (semacode : ptr) (s : semacode_t) : Prop :=
  mk_store_ok {
  ok_semacode : semacode <> NULL;
  ok_struct : heap m !! semacode = Some (Live (Struct s));
  ok_data : data s = NULL \/ exists bs, heap m !! data s = Some (Live (Bytes bs));
  ok_encoding :
    encoding s = NULL \/ exists bs, heap m !! encoding s = Some (Live (Bytes bs));
  ok_distinct : data s = NULL \/ data s <> encoding s
}.

(** The caller's buffer at [message]: the C string [cstr], its terminator and
    room for at least one more byte; it is none of the store's buffers. *)
Record message_ok (m : memory) (s : semacode_t) (message : ptr)
    (cstr : list char) (spare : char) (rest : list char) : Prop :=
  mk_message_ok {
  msg_ptr : message <> NULL;
  msg_block : heap m !! message = Some (Live (Bytes (cstr ++ NUL :: spare :: rest)));
  msg_cstr : Forall (fun c => c <> NUL) cstr;
  msg_data : message <> data s;
  msg_encoding : message <> encoding s
}.

(** The memory after [free(p)] of a live block: the block is marked and the
    pointer recorded; NULL changes nothing. *)
Definition release (p : ptr) (m : memory) : memory :=
  match heap m !! p with
  | Some (Live c) =>
      if decide (p = NULL) then m
      else mk_memory (<[p := Freed c]> (heap m)) (rdata m)
                     (p :: released m) (calls m)
  | _ => m
  end.

(** The pointer [free] records for [p]: none for NULL. *)
Definition freed_of (p : ptr) : list ptr :=
  if decide (p = NULL) then [] else [p].

(** The bytes of a C string: those before the first NUL. *)
Definition c_string (bs : list char) : list char :=
  match strlen bs with
  | Some k => take k bs
  | None => bs
  end.

(** The value of a String as Ruby reads it: the [rs_len] bytes at
    RSTRING_PTR.  The extension reads the length (RSTRING_LEN) and never
    writes it. *)
Definition rstring_value (m : memory) (r : rstring) : option (list char) :=
  match heap m !! rs_ptr r with
  | Some (Live (Bytes bs)) => Some (take (Z.to_nat (rs_len r)) bs)
  | _ => None
  end.


Definition memory_of {A} (o : outcome A) : memory :=
  match o with
  | Ok _ m | Raise _ m | Fault _ m => m
  end.

Section Statements.
Context `{Codec}.


(** The codec is called once, with the length of the payload plus one and
    with the payload followed by one space. *)
Definition sees_padded_payload (m : memory) (semacode message : ptr)
    (payload : list char) : Prop :=
  exists m' c,
    encode_string semacode (Z.of_nat (length payload)) message m
      = Ok semacode m' /\
    calls m' = c :: calls m /\
    call_barcodelen c = Z.of_nat (length payload) + 1 /\
    take (length payload + 1) (call_barcode c) = payload ++ [SPACE].

(** The String object [r] has been extended by one trailing space: the
    constructor returns, and the value of the String afterwards is its value
    before followed by a space. *)
Definition caller_string_extended (m : memory) (self : N) (r : rstring) : Prop :=
  exists m' payload,
    semacode_init self (T_STRING r) m = Ok (Object self) m' /\
    rstring_value m r = Some payload /\
    rstring_value m' r = Some (payload ++ [SPACE]).

End Statements.

(** ** A small scenario *)

(** A codec with a single symbol size, three modules wide and two high, that
    holds up to three bytes. *)
Definition demo_codec : Codec := {|
  iec16022init := fun _ _ _ => (3, 2);
  iec16022ecc200 := fun W H barcodelen _ =>
    if decide (barcodelen <= 3) then
      Some (mk_out ["001"; "000"; "000"; "000"; "001"; "001"]%char W H
                   ["A"; "B"; "000"]%char barcodelen 3 5)
    else None
|}.

(** A codec that finds no encoding. *)
Definition failing_codec : Codec := {|
  iec16022init := fun _ _ _ => (3, 2);
  iec16022ecc200 := fun _ _ _ _ => None
|}.

Definition empty_memory : memory := mk_memory ∅ ∅ [] [].

(** A Ruby String buffer: the bytes, the terminator and [room] spare bytes. *)
Definition buffer_of (bs : list char) (room : nat) : list char :=
  bs ++ replicate (S room) NUL.

(** Three caller strings, ["A"], ["B"] and the empty one, then a new Encoder
    object: the buffers are blocks 1, 2 and 3, the record is block 4, the
    object 0. *)
Definition boot : M N :=
  malloc (Bytes (buffer_of ["A"%char] 1)) ;;;
  malloc (Bytes (buffer_of ["B"%char] 1)) ;;;
  malloc (Bytes (buffer_of [] 1)) ;;;
  semacode_allocate.

Definition string_A : message_t := T_STRING (mk_rstring 1 1%N).
Definition string_B : message_t := T_STRING (mk_rstring 1 2%N).
Definition string_empty : message_t := T_STRING (mk_rstring 0 3%N).

(** The memory with the new, empty store. *)
Definition memory_new : memory := memory_of (boot empty_memory).

(** The memory after [Encoder.new("A")] with [demo_codec]: the bits are
    block 5 and the codewords block 6. *)
Definition memory_A : memory :=
  memory_of (@semacode_init demo_codec 0%N string_A memory_new).

(** The memory with the new, empty store and a fourth caller string, block 5,
    of the three bytes ['a'], NUL, ['b']. *)
Definition memory_nul : memory :=
  memory_of (malloc (Bytes (buffer_of ["a"; "000"; "b"]%char 1)) memory_new).

Definition store_A : semacode_t := mk_semacode 3 2 2 3 5 6%N 5%N.
Definition bits_A : list char := ["001"; "000"; "000"; "000"; "001"; "001"]%char.

(** The symbol [demo_codec] makes of a message of one byte and its space. *)
Definition symbol_A : ecc200_out :=
  mk_out bits_A 3 2 ["A"; "B"; "000"]%char 2 3 5.

(** ** The class as Init_semacode_native sets it up *)

(** The mark function of the T_DATA object: the record holds no Ruby
    object. *)
Definition semacode_mark (semacode : ptr) : M unit := ret tt.

Section Class.
Context `{Codec}.

(** [Encoder.new(message)]: the allocator registered with
    rb_define_alloc_func, then the method registered as [initialize]. *)
Definition Encoder_new (message : message_t) : M VALUE :=
  let* self := semacode_allocate in
  semacode_init self message.

End Class.

(** A symbol of the codec that fits the record: positive dimensions, one
    module per cell, the product an [int]. *)
Definition symbol_ok (o : ecc200_out) : Prop :=
  0 < out_W o /\ 0 < out_H o /\
  Z.of_nat (length (out_grid o)) = out_W o * out_H o /\
  out_W o * out_H o <= INT_MAX.

(** ** Computations that only read *)

(** A computation that leaves the memory as it found it, however it ends. *)
Definition read_only {A} (c : M A) : Prop :=
  forall m, memory_of (c m) = m.

(** The truth values and the digits of a run of modules. *)
Definition truths (bits : list char) : list VALUE := Qbool <$> bits.
Definition digits (bits : list char) : list char := digit <$> bits.

(** The cells of a row of the grid view. *)
Definition cells_of (row : VALUE) : list VALUE :=
  match row with
  | Array cells => cells
  | _ => []
  end.

(** * Properties *)

(** ** Integers and the steps of the monad *)

Lemma wrap_int_id z : - 2 ^ 31 <= z <= INT_MAX -> wrap_int z = z.
Proof.
  unfold wrap_int, INT_MAX. intros Hz.
  rewrite Z.mod_small; lia.
Qed.

Lemma bind_Ok {A B} (c : M A) (k : A -> M B) m a m' :
  c m = Ok a m' -> bind c k m = k a m'.
Proof. intros Hc. unfold bind. by rewrite Hc. Qed.

Lemma bind_Fault {A B} (c : M A) (k : A -> M B) m f m' :
  c m = Fault f m' -> bind c k m = Fault f m'.
Proof. intros Hc. unfold bind. by rewrite Hc. Qed.

Lemma bind_Raise {A B} (c : M A) (k : A -> M B) m e m' :
  c m = Raise e m' -> bind c k m = Raise e m'.
Proof. intros Hc. unfold bind. by rewrite Hc. Qed.

Lemma bind_assoc {A B C} (c : M A) (k1 : A -> M B) (k2 : B -> M C) m :
  bind (bind c k1) k2 m = bind c (fun a => bind (k1 a) k2) m.
Proof. unfold bind. by destruct (c m). Qed.

Lemma load_struct_live m p s :
  p <> NULL -> heap m !! p = Some (Live (Struct s)) -> load_struct p m = Ok s m.
Proof.
  intros Hp Hs. unfold load_struct, load, bind, ret.
  rewrite decide_False by done. by rewrite Hs.
Qed.

Lemma load_bytes_live m p bs :
  p <> NULL -> heap m !! p = Some (Live (Bytes bs)) -> load_bytes p m = Ok bs m.
Proof.
  intros Hp Hb. unfold load_bytes, load, bind, ret.
  rewrite decide_False by done. by rewrite Hb.
Qed.

Lemma load_char_live m p bs i c :
  p <> NULL -> heap m !! p = Some (Live (Bytes bs)) -> bs !! i = Some c ->
  load_char p (Z.of_nat i) m = Ok c m.
Proof.
  intros Hp Hb Hi. unfold load_char, load_bytes, load, bind, ret.
  rewrite decide_False by done. rewrite Hb. simpl.
  rewrite decide_True by lia. by rewrite Nat2Z.id, Hi.
Qed.

Lemma store_struct_live m p s0 s :
  p <> NULL -> heap m !! p = Some (Live (Struct s0)) ->
  store_struct p s m = Ok tt (set_heap (<[p := Live (Struct s)]> (heap m)) m).
Proof.
  intros Hp Hs. unfold store_struct.
  rewrite (bind_Ok _ _ _ _ _ (load_struct_live m p s0 Hp Hs)).
  unfold store. rewrite decide_False by done. by rewrite Hs.
Qed.

Lemma guarded_free p m :
  (if decide (p <> NULL) then free p else ret tt) m = free p m.
Proof.
  destruct (decide (p = NULL)) as [->|Hp].
  - rewrite decide_False by (intros Hn; by apply Hn).
    unfold free, ret. by rewrite decide_True.
  - by rewrite decide_True.
Qed.

Lemma free_owned m p :
  p = NULL \/ (exists bs, heap m !! p = Some (Live (Bytes bs))) ->
  free p m = Ok tt (release p m).
Proof.
  unfold free, release. intros [Hp|[bs Hb]].
  - subst p. rewrite decide_True by done.
    by destruct (heap m !! NULL) as [[c|c]|].
  - rewrite Hb. by case_decide.
Qed.

Lemma free_released m p c :
  heap m !! p = Some (Freed c) -> p <> NULL -> free p m = Fault (DoubleFree p) m.
Proof. intros Hf Hp. unfold free. rewrite decide_False by done. by rewrite Hf. Qed.

Lemma release_NULL m : release NULL m = m.
Proof. unfold release. by destruct (heap m !! NULL) as [[c|c]|]. Qed.

Lemma release_lookup_ne m p q :
  q <> p -> heap (release p m) !! q = heap m !! q.
Proof.
  intros Hq. unfold release. destruct (heap m !! p) as [[c|c]|]; try done.
  case_decide; [done|]. simpl. by rewrite lookup_insert_ne.
Qed.

Lemma release_lookup m p bs :
  p <> NULL -> heap m !! p = Some (Live (Bytes bs)) ->
  heap (release p m) !! p = Some (Freed (Bytes bs)).
Proof.
  intros Hp Hb. unfold release. rewrite Hb, decide_False by done. simpl.
  by rewrite lookup_insert_eq.
Qed.

Lemma release_released m p :
  p = NULL \/ (exists bs, heap m !! p = Some (Live (Bytes bs))) ->
  released (release p m) = freed_of p ++ released m.
Proof.
  unfold release, freed_of. intros [Hp|[bs Hb]].
  - subst p. rewrite decide_True by done.
    by destruct (heap m !! NULL) as [[c|c]|].
  - rewrite Hb. by case_decide.
Qed.

Lemma release_rdata m p : rdata (release p m) = rdata m.
Proof.
  unfold release. destruct (heap m !! p) as [[c|c]|]; try done. by case_decide.
Qed.

Lemma release_calls m p : calls (release p m) = calls m.
Proof.
  unfold release. destruct (heap m !! p) as [[c|c]|]; try done. by case_decide.
Qed.

Lemma release_dom m p : dom (heap (release p m)) = dom (heap m).
Proof.
  unfold release. destruct (heap m !! p) as [[c|c]|] eqn:Hp; try done.
  case_decide; [done|]. simpl. by apply dom_insert_lookup_L.
Qed.

Lemma malloc_fresh c m :
  exists p, malloc c m = Ok p (set_heap (<[p := Live c]> (heap m)) m) /\
            p <> NULL /\ heap m !! p = None.
Proof.
  eexists. split; [reflexivity|].
  pose proof (is_fresh ({[NULL]} ∪ dom (heap m))) as Hf.
  apply not_elem_of_union in Hf as [Hn Hd]. split.
  - intros Heq. apply Hn. by apply elem_of_singleton.
  - by apply not_elem_of_dom.
Qed.

Lemma strlen_c_string cstr tail :
  Forall (fun c => c <> NUL) cstr ->
  strlen (cstr ++ NUL :: tail) = Some (length cstr).
Proof.
  induction 1 as [|c cstr Hc _ IH]; cbn [strlen app length].
  - by rewrite decide_True.
  - rewrite decide_False by done. by rewrite IH.
Qed.

Lemma strcat_space m p cstr spare rest :
  p <> NULL ->
  heap m !! p = Some (Live (Bytes (cstr ++ NUL :: spare :: rest))) ->
  Forall (fun c => c <> NUL) cstr ->
  strcat p [SPACE] m
  = Ok tt (set_heap (<[p := Live (Bytes (cstr ++ SPACE :: NUL :: rest))]> (heap m)) m).
Proof.
  intros Hp Hb Hc. unfold strcat.
  rewrite (bind_Ok _ _ _ _ _ (load_bytes_live m p _ Hp Hb)).
  rewrite strlen_c_string by done.
  rewrite decide_True by (rewrite length_app; simpl; lia).
  unfold store. rewrite decide_False by done. rewrite Hb.
  do 4 f_equal. rewrite take_app_length. f_equal. simpl. do 2 f_equal.
  replace (length cstr + 1 + 1)%nat with (length cstr + 2)%nat by lia.
  by rewrite drop_app_add.
Qed.

Lemma bzero_whole s : bzero_semacode sizeof_semacode_t s = zero_semacode.
Proof. reflexivity. Qed.

Lemma bzero_pointer s :
  bzero_semacode sizeof_pointer s
  = mk_semacode 0 0 (raw_encoded_length s) (symbol_capacity s) (ecc_bytes s)
                (encoding s) (data s).
Proof. reflexivity. Qed.

(** ** The loops of the views *)

Lemma cell_index (w y x n : nat) (bits : list char) :
  (x < w)%nat -> (y * w + w <= length bits)%nat ->
  Z.of_nat (length bits) <= INT_MAX ->
  wrap_int (wrap_int (Z.of_nat y * Z.of_nat w) + Z.of_nat x)
  = Z.of_nat (y * w + x).
Proof.
  intros Hx Hy Hmax. unfold INT_MAX in *.
  rewrite (wrap_int_id (Z.of_nat y * Z.of_nat w)) by (unfold INT_MAX; nia).
  rewrite wrap_int_id by (unfold INT_MAX; nia). lia.
Qed.

Lemma take_drop_step {A} (l : list A) k n c :
  l !! k = Some c -> take (S n) (drop k l) = c :: take n (drop (S k) l).
Proof.
  intros Hk. rewrite (drop_S l c k Hk). done.
Qed.

(** One turn of an inner loop: the module at [y * w + x] is read within the
    buffer, no [int] wraps, and the rest of the row follows by induction. *)
Ltac row_step m p bits w y x n IH :=
  let c := fresh "c" in
  let Hc := fresh "Hc" in
  destruct (lookup_lt_is_Some_2 bits (y * w + x)) as [c Hc]; [lia|];
  unfold bind at 1; rewrite (cell_index w y x n bits) by lia;
  rewrite (load_char_live m p bits _ c) by done;
  rewrite (wrap_int_id (Z.of_nat x + 1)) by (unfold INT_MAX in *; lia);
  replace (Z.of_nat x + 1) with (Z.of_nat (S x)) by lia;
  rewrite IH by lia; rewrite (take_drop_step bits _ n c Hc);
  rewrite fmap_cons, <- app_assoc; simpl;
  by replace (y * w + S x)%nat with (S (y * w + x)) by lia.

Lemma grid_row_run m p bits (w y : nat) :
  p <> NULL -> heap m !! p = Some (Live (Bytes bits)) ->
  (y * w + w <= length bits)%nat -> Z.of_nat (length bits) <= INT_MAX ->
  forall (n x : nat) ary, (x + n <= w)%nat ->
    grid_row p (Z.of_nat w) (Z.of_nat y) n (Z.of_nat x) ary m
    = Ok (ary ++ (Qbool <$> take n (drop (y * w + x) bits))) m.
Proof.
  intros Hp Hb Hy Hmax. induction n as [|n IH]; intros x ary Hx; simpl.
  - by rewrite app_nil_r.
  - row_step m p bits w y x n IH.
Qed.

Lemma to_s_row_run m p bits (w y : nat) :
  p <> NULL -> heap m !! p = Some (Live (Bytes bits)) ->
  (y * w + w <= length bits)%nat -> Z.of_nat (length bits) <= INT_MAX ->
  forall (n x : nat) str, (x + n <= w)%nat ->
    to_s_row p (Z.of_nat w) (Z.of_nat y) n (Z.of_nat x) str m
    = Ok (str ++ (digit <$> take n (drop (y * w + x) bits))) m.
Proof.
  intros Hp Hb Hy Hmax. induction n as [|n IH]; intros x str Hx; simpl.
  - by rewrite app_nil_r.
  - row_step m p bits w y x n IH.
Qed.

Lemma top_down_S n : top_down (S n) = n :: top_down n.
Proof. unfold top_down. by rewrite seq_S, rev_app_distr. Qed.

Lemma top_down_lookup n r :
  (r < n)%nat -> top_down n !! r = Some (n - 1 - r)%nat.
Proof.
  revert r. induction n as [|n IH]; intros r Hr; [lia|].
  rewrite top_down_S. destruct r as [|r]; simpl.
  - f_equal. lia.
  - rewrite IH by lia. f_equal. lia.
Qed.

Lemma top_down_length n : length (top_down n) = n.
Proof. unfold top_down. by rewrite length_rev, length_seq. Qed.

Lemma rb_ary_new2_run capa m : 0 <= capa -> rb_ary_new2 capa m = Ok [] m.
Proof. intros Hc. unfold rb_ary_new2. by rewrite decide_False by lia. Qed.

Lemma grid_rows_run m p bits (w : nat) :
  p <> NULL -> heap m !! p = Some (Live (Bytes bits)) ->
  Z.of_nat (length bits) <= INT_MAX ->
  forall (n : nat) acc, (n * w <= length bits)%nat ->
    grid_rows p (Z.of_nat w) n acc m
    = Ok (acc ++ ((fun y => Array (Qbool <$> bits_row bits w y)) <$> top_down n)) m.
Proof.
  intros Hp Hb Hmax. induction n as [|n IH]; intros acc Hn; simpl.
  - by rewrite app_nil_r.
  - rewrite (bind_Ok _ _ _ _ _ (rb_ary_new2_run (Z.of_nat w) m ltac:(lia))).
    unfold bind at 1. rewrite Nat2Z.id. change 0 with (Z.of_nat 0).
    rewrite (grid_row_run m p bits w n Hp Hb) by lia.
    rewrite IH by lia. rewrite top_down_S, fmap_cons, <- app_assoc. simpl.
    unfold bits_row. by rewrite Nat.add_0_r.
Qed.

Lemma to_s_rows_run m p bits (w : nat) :
  p <> NULL -> heap m !! p = Some (Live (Bytes bits)) ->
  Z.of_nat (length bits) <= INT_MAX ->
  forall (n : nat) str, (n * w <= length bits)%nat ->
    to_s_rows p (Z.of_nat w) n str m
    = Ok (str ++ concat ((fun y => (digit <$> bits_row bits w y) ++ [","%char])
                           <$> top_down n)) m.
Proof.
  intros Hp Hb Hmax. induction n as [|n IH]; intros str Hn; simpl.
  - by rewrite app_nil_r.
  - unfold bind at 1. rewrite Nat2Z.id. change 0 with (Z.of_nat 0).
    rewrite (to_s_row_run m p bits w n Hp Hb) by lia.
    rewrite IH by lia. rewrite top_down_S, fmap_cons. simpl.
    unfold bits_row. rewrite Nat.add_0_r. by rewrite <- !app_assoc.
Qed.

(** The number of rows both loops start from is the height. *)
Lemma rows_count h : 0 < h <= INT_MAX -> Z.to_nat (wrap_int (h - 1) + 1) = Z.to_nat h.
Proof.
  intros Hh. rewrite wrap_int_id by (unfold INT_MAX in *; lia). f_equal. lia.
Qed.

Lemma encoded_dims m self semacode s bits :
  encoded m self semacode s bits ->
  width s = Z.of_nat (Z.to_nat (width s)) /\
  0 < height s <= INT_MAX /\
  Z.of_nat (length bits) <= INT_MAX /\
  length bits = (Z.to_nat (height s) * Z.to_nat (width s))%nat.
Proof.
  intros [_ _ _ _ _ Hw Hh Hsz Hmax]. unfold INT_MAX in *. repeat split; nia.
Qed.

(** The grid of an encoded store, in closed form. *)
Lemma semacode_grid_encoded m self semacode s bits :
  encoded m self semacode s bits ->
  semacode_grid semacode m
  = Ok (Array ((fun y => Array (Qbool <$> bits_row bits (Z.to_nat (width s)) y))
                 <$> top_down (Z.to_nat (height s)))) m.
Proof.
  intros He. destruct (encoded_dims _ _ _ _ _ He) as (Hw & Hh & Hmax & Hlen).
  destruct He as [_ Hp Hs Hd Hb _ _ _ _].
  unfold semacode_grid.
  rewrite (bind_Ok _ _ _ _ _ (load_struct_live m semacode s Hp Hs)).
  rewrite (bind_Ok _ _ _ _ _ (rb_ary_new2_run (height s) m ltac:(lia))).
  unfold bind. rewrite rows_count by done. rewrite Hw.
  rewrite (grid_rows_run m (data s) bits _ Hd Hb Hmax) by lia.
  by rewrite <- Hw.
Qed.

Lemma semacode_data_encoded m self semacode s bits :
  encoded m self semacode s bits ->
  semacode_data self m
  = Ok (Array ((fun y => Array (Qbool <$> bits_row bits (Z.to_nat (width s)) y))
                 <$> top_down (Z.to_nat (height s)))) m.
Proof.
  intros He. pose proof (semacode_grid_encoded _ _ _ _ _ He) as Hg.
  destruct He as [Hself Hp Hs Hd _ _ _ _ _].
  unfold semacode_data, Data_Get_Struct, bind. rewrite Hself.
  rewrite (load_struct_live m semacode s Hp Hs).
  by rewrite decide_False.
Qed.

(** The bit string of an encoded store, in closed form. *)
Lemma semacode_to_s_encoded m self semacode s bits :
  encoded m self semacode s bits ->
  semacode_to_s self m
  = Ok (Str (concat ((fun y => (digit <$> bits_row bits (Z.to_nat (width s)) y)
                                 ++ [","%char])
                       <$> top_down (Z.to_nat (height s))))) m.
Proof.
  intros He. destruct (encoded_dims _ _ _ _ _ He) as (Hw & Hh & Hmax & Hlen).
  destruct He as [Hself Hp Hs Hd Hb _ _ _ _].
  unfold semacode_to_s, Data_Get_Struct, bind. rewrite Hself.
  rewrite decide_False by done.
  rewrite (load_struct_live m semacode s Hp Hs).
  rewrite decide_False by done.
  rewrite rows_count by done. rewrite Hw.
  rewrite (to_s_rows_run m (data s) bits _ Hd Hb Hmax) by lia.
  by rewrite <- Hw.
Qed.

(** Cell [c] of internal row [y]. *)
Lemma bits_row_lookup bits (w h y c : nat) :
  length bits = (h * w)%nat -> (y < h)%nat -> (c < w)%nat ->
  exists b, bits !! (y * w + c)%nat = Some b /\ bits_row bits w y !! c = Some b.
Proof.
  intros Hlen Hy Hc.
  destruct (lookup_lt_is_Some_2 bits (y * w + c)) as [b Hb]; [nia|].
  exists b. split; [done|]. unfold bits_row.
  by rewrite lookup_take_lt, lookup_drop.
Qed.

Lemma bits_row_length bits (w h y : nat) :
  length bits = (h * w)%nat -> (y < h)%nat -> length (bits_row bits w y) = w.
Proof.
  intros Hlen Hy. unfold bits_row. rewrite length_take, length_drop. nia.
Qed.

Lemma digit_cases b : digit b = "0"%char \/ digit b = "1"%char.
Proof. unfold digit. case_decide; auto. Qed.

Lemma digit_set b : digit b = "1"%char <-> Qbool b = Qtrue.
Proof. unfold digit, Qbool. case_decide; split; intros; done. Qed.

Lemma digit_not_comma b : digit b <> ","%char.
Proof. unfold digit. case_decide; done. Qed.

Lemma groups_of_group g rest cur :
  Forall (fun ch => ch <> ","%char) g ->
  groups_of (g ++ ","%char :: rest) cur = (cur ++ g) :: groups_of rest [].
Proof.
  intros Hg. revert cur.
  induction Hg as [|ch g Hch _ IH]; intros cur; cbn [groups_of app].
  - rewrite decide_True by done. by rewrite app_nil_r.
  - rewrite decide_False by done. rewrite IH. by rewrite <- app_assoc.
Qed.

Lemma groups_of_concat (gs : list (list char)) :
  Forall (Forall (fun ch => ch <> ","%char)) gs ->
  groups_of (concat ((fun g => g ++ [","%char]) <$> gs)) [] = gs.
Proof.
  induction 1 as [|g gs Hg _ IH]; [done|].
  rewrite fmap_cons. cbn [concat]. rewrite <- app_assoc. cbn [app].
  rewrite groups_of_group by done. by rewrite IH.
Qed.

Lemma semacode_to_s_no_bits m self semacode s :
  rdata m !! self = Some semacode ->
  (semacode <> NULL -> heap m !! semacode = Some (Live (Struct s))) ->
  semacode = NULL \/ data s = NULL ->
  semacode_to_s self m = Ok Qnil m.
Proof.
  intros Hself Hs Hno. unfold semacode_to_s, Data_Get_Struct, bind.
  rewrite Hself. case_decide as Hp; [done|].
  rewrite (load_struct_live m semacode s Hp (Hs Hp)).
  destruct Hno as [?|Hd]; [done|]. by rewrite decide_True.
Qed.

(** ** The views of an encoded store *)

(** C7. For an encoded store of dimensions [width] x [height], the grid view
    is an array of exactly [height] rows, every row an array of exactly
    [width] booleans, and cell [c] of output row [r] is the truth value of
    the module at index [(height - 1 - r) * width + c] of the internal
    buffer: output row 0 is internal row [height - 1]. *)
Theorem semacode_data_rows m self semacode s bits :
  encoded m self semacode s bits ->
  exists rows,
    semacode_data self m = Ok (Array rows) m /\
    length rows = Z.to_nat (height s) /\
    forall r, (r < Z.to_nat (height s))%nat ->
      exists cells,
        rows !! r = Some (Array cells) /\
        length cells = Z.to_nat (width s) /\
        forall c, (c < Z.to_nat (width s))%nat ->
          exists b,
            bits !! ((Z.to_nat (height s) - 1 - r) * Z.to_nat (width s) + c)%nat
              = Some b /\
            cells !! c = Some (if decide (b = NUL) then Qfalse else Qtrue).
Proof.
  intros He. destruct (encoded_dims _ _ _ _ _ He) as (_ & _ & _ & Hlen).
  eexists. split; [by apply (semacode_data_encoded _ _ _ _ _ He)|].
  split; [by rewrite length_fmap, top_down_length|].
  intros r Hr. eexists. rewrite list_lookup_fmap, top_down_lookup by done.
  split; [done|]. rewrite length_fmap.
  split; [apply (bits_row_length _ _ _ _ Hlen); lia|].
  intros c Hc.
  destruct (bits_row_lookup bits _ _ (Z.to_nat (height s) - 1 - r) c Hlen)
    as (b & Hb & Hrow); [lia|done|].
  exists b. split; [done|]. by rewrite list_lookup_fmap, Hrow.
Qed.

(** C8. For an encoded store the string view is [height] groups of [width]
    characters, each ['1'] (module set) or ['0'] (module clear), every group
    followed by one [','], the last one included; group [r] spells internal
    row [height - 1 - r], the order of the grid view.  For a store without
    bits (a NULL record or a NULL [data]) the view is [nil]. *)
Theorem semacode_to_s_groups m self semacode s :
  rdata m !! self = Some semacode ->
  (semacode <> NULL -> heap m !! semacode = Some (Live (Struct s))) ->
  (semacode = NULL \/ data s = NULL -> semacode_to_s self m = Ok Qnil m) /\
  (forall bits, encoded m self semacode s bits ->
    exists groups,
      semacode_to_s self m
        = Ok (Str (concat ((fun g => g ++ [","%char]) <$> groups))) m /\
      length groups = Z.to_nat (height s) /\
      forall r, (r < Z.to_nat (height s))%nat ->
        exists g,
          groups !! r = Some g /\
          length g = Z.to_nat (width s) /\
          Forall (fun ch => ch = "0"%char \/ ch = "1"%char) g /\
          forall c, (c < Z.to_nat (width s))%nat ->
            exists b,
              bits !! ((Z.to_nat (height s) - 1 - r) * Z.to_nat (width s) + c)%nat
                = Some b /\
              g !! c = Some (if decide (b = NUL) then "0"%char else "1"%char)).
Proof.
  intros Hself Hs. split.
  - by apply semacode_to_s_no_bits.
  - intros bits He. destruct (encoded_dims _ _ _ _ _ He) as (_ & _ & _ & Hlen).
    exists ((fun y => digit <$> bits_row bits (Z.to_nat (width s)) y)
              <$> top_down (Z.to_nat (height s))).
    split.
    { rewrite (semacode_to_s_encoded _ _ _ _ _ He).
      by rewrite <- list_fmap_compose. }
    split; [by rewrite length_fmap, top_down_length|].
    intros r Hr. eexists. rewrite list_lookup_fmap, top_down_lookup by done.
    split; [done|]. rewrite length_fmap.
    split; [apply (bits_row_length _ _ _ _ Hlen); lia|].
    split; [apply Forall_fmap, Forall_forall; intros b _; apply digit_cases|].
    intros c Hc.
    destruct (bits_row_lookup bits _ _ (Z.to_nat (height s) - 1 - r) c Hlen)
      as (b & Hb & Hrow); [lia|done|].
    exists b. split; [done|]. by rewrite list_lookup_fmap, Hrow.
Qed.

(** C9. For an encoded store and every row [r] and column [c] within the
    dimensions, character [c] of group [r] of the string view is ['1'] if and
    only if cell [c] of row [r] of the grid view is [true]. *)
Theorem to_s_agrees_with_grid m self semacode s bits :
  encoded m self semacode s bits ->
  exists rows str,
    semacode_data self m = Ok (Array rows) m /\
    semacode_to_s self m = Ok (Str str) m /\
    forall r c, (r < Z.to_nat (height s))%nat -> (c < Z.to_nat (width s))%nat ->
      exists g cells ch v,
        groups_of str [] !! r = Some g /\ g !! c = Some ch /\
        rows !! r = Some (Array cells) /\ cells !! c = Some v /\
        (ch = "1"%char <-> v = Qtrue).
Proof.
  intros He. destruct (encoded_dims _ _ _ _ _ He) as (_ & _ & _ & Hlen).
  eexists _, (concat ((fun g => g ++ [","%char]) <$>
    ((fun y => digit <$> bits_row bits (Z.to_nat (width s)) y)
       <$> top_down (Z.to_nat (height s))))).
  split; [by apply (semacode_data_encoded _ _ _ _ _ He)|].
  split.
  { rewrite (semacode_to_s_encoded _ _ _ _ _ He).
    by rewrite <- list_fmap_compose. }
  intros r c Hr Hc.
  rewrite groups_of_concat.
  2:{ apply Forall_fmap, Forall_forall. intros y _.
      apply Forall_fmap, Forall_forall. intros b _. apply digit_not_comma. }
  destruct (bits_row_lookup bits _ _ (Z.to_nat (height s) - 1 - r) c Hlen)
    as (b & Hb & Hrow); [lia|done|].
  exists (digit <$> bits_row bits (Z.to_nat (width s)) (Z.to_nat (height s) - 1 - r)),
         (Qbool <$> bits_row bits (Z.to_nat (width s)) (Z.to_nat (height s) - 1 - r)),
         (digit b), (Qbool b).
  rewrite !list_lookup_fmap, top_down_lookup by done. simpl.
  rewrite Hrow. simpl.
  repeat split; try done; apply digit_set.
Qed.

(** ** encode_string on a well-formed store and message *)

(** The record, the buffers it owns and the caller's buffer are apart. *)
Lemma store_ok_apart m semacode s message cstr spare rest :
  store_ok m semacode s -> message_ok m s message cstr spare rest ->
  semacode <> data s /\ semacode <> encoding s /\ semacode <> message.
Proof.
  intros [Hp Hs Hd He _] [_ Hmb _ _ _]. repeat split; intros Heq.
  - destruct Hd as [Hd|[bs Hd]]; congruence.
  - destruct He as [He|[bs He]]; congruence.
  - congruence.
Qed.

Section EncodeString.
Context `{Codec}.

(** The memory in which the codec is called: the old buffers are released,
    the record is zeroed but for the hints of iec16022init, and the caller's
    buffer holds one more space. *)
Lemma encode_string_prepare m semacode s len message cstr spare rest :
  store_ok m semacode s ->
  message_ok m s message cstr spare rest ->
  1 <= len ->
  let msg' := cstr ++ SPACE :: NUL :: rest in
  let wh := iec16022init 0 0 msg' in
  let hints := mk_semacode wh.1 wh.2 0 0 0 NULL NULL in
  let m2 := release (encoding s) (release (data s) m) in
  let m5 := set_heap (<[semacode := Live (Struct hints)]>
                        (<[message := Live (Bytes msg')]> (heap m2))) m2 in
  encode_string semacode len message m
  = (let* grid := call_iec16022ecc200 semacode (wrap_int (len + 1)) message in
     let* s := load_struct semacode in
     store_struct semacode
       (mk_semacode (width s) (height s) (raw_encoded_length s)
                    (symbol_capacity s) (ecc_bytes s) (encoding s) grid) ;;;
      ret semacode) m5.
Proof.
  intros Hok Hmsg Hlen msg' wh hints m2 m5.
  destruct (store_ok_apart _ _ _ _ _ _ _ Hok Hmsg) as (Hsd & Hse & Hsm).
  destruct Hok as [Hp Hs Hd He Hde]. destruct Hmsg as [Hmp Hmb Hmc Hmd Hme].
  unfold encode_string.
  rewrite decide_False by (intros [?|[?|?]]; [done|done|lia]).
  rewrite (bind_Ok _ _ _ _ _ (load_struct_live m semacode s Hp Hs)).
  rewrite (bind_Ok _ _ m _ _ (eq_trans (guarded_free _ _) (free_owned m (data s) Hd))).
  set (m1 := release (data s) m).
  assert (Hs1 : heap m1 !! semacode = Some (Live (Struct s)))
    by (unfold m1; by rewrite release_lookup_ne).
  assert (He1 : encoding s = NULL \/
                exists bs, heap m1 !! encoding s = Some (Live (Bytes bs))).
  { destruct He as [?|[bs Hb]]; [by left|]. right. exists bs. unfold m1.
    destruct Hde as [Hd0|Hne]; [by rewrite Hd0, release_NULL|].
    by rewrite release_lookup_ne. }
  rewrite (bind_Ok _ _ _ _ _ (load_struct_live m1 semacode s Hp Hs1)).
  rewrite (bind_Ok _ _ m1 _ _ (eq_trans (guarded_free _ _) (free_owned m1 (encoding s) He1))).
  fold m2.
  assert (Hs2 : heap m2 !! semacode = Some (Live (Struct s)))
    by (unfold m2; by rewrite release_lookup_ne).
  assert (Hm2 : heap m2 !! message
                = Some (Live (Bytes (cstr ++ NUL :: spare :: rest))))
    by (unfold m2; by rewrite !release_lookup_ne).
  rewrite (bind_Ok _ _ _ _ _ (load_struct_live m2 semacode s Hp Hs2)).
  rewrite bzero_whole.
  rewrite (bind_Ok _ _ _ _ _ (store_struct_live m2 semacode s zero_semacode Hp Hs2)).
  set (m3 := set_heap _ m2).
  assert (Hm3 : heap m3 !! message
                = Some (Live (Bytes (cstr ++ NUL :: spare :: rest))))
    by (unfold m3; simpl; by rewrite lookup_insert_ne).
  rewrite (bind_Ok _ _ _ _ _ (strcat_space m3 message cstr spare rest Hmp Hm3 Hmc)).
  set (m4 := set_heap _ m3).
  assert (Hs4 : heap m4 !! semacode = Some (Live (Struct zero_semacode))).
  { unfold m4, m3. simpl. rewrite lookup_insert_ne by done.
    by rewrite lookup_insert_eq. }
  assert (Hm4 : heap m4 !! message = Some (Live (Bytes msg')))
    by (unfold m4; simpl; by rewrite lookup_insert_eq).
  unfold call_iec16022init at 1.
  rewrite (bind_Ok _ _ m4 tt
    (set_heap (<[semacode := Live (Struct hints)]> (heap m4)) m4)).
  2:{ rewrite (bind_Ok _ _ _ _ _ (load_struct_live m4 semacode _ Hp Hs4)).
      rewrite (bind_Ok _ _ _ _ _ (load_bytes_live m4 message _ Hmp Hm4)).
      by rewrite (store_struct_live m4 semacode zero_semacode _ Hp Hs4). }
  f_equal. unfold m5, m4, m3, set_heap. simpl. f_equal.
  apply map_eq. intros q.
  destruct (decide (q = semacode)) as [->|Hq].
  { by rewrite !lookup_insert_eq. }
  rewrite !(lookup_insert_ne _ semacode q) by done.
  destruct (decide (q = message)) as [->|Hq'].
  { by rewrite !lookup_insert_eq. }
  rewrite !(lookup_insert_ne _ message q) by done.
  by rewrite lookup_insert_ne.
Qed.

(** What encode_string does to a well-formed store and message, whatever the
    codec answers. *)
Lemma encode_string_run m semacode s len message cstr spare rest :
  store_ok m semacode s ->
  message_ok m s message cstr spare rest ->
  1 <= len ->
  let msg' := cstr ++ SPACE :: NUL :: rest in
  let wh := iec16022init 0 0 msg' in
  let len' := wrap_int (len + 1) in
  exists m',
    encode_string semacode len message m = Ok semacode m' /\
    heap m' !! message = Some (Live (Bytes msg')) /\
    calls m' = mk_call wh.1 wh.2 len' msg' :: calls m /\
    rdata m' = rdata m /\
    released m' = freed_of (encoding s) ++ freed_of (data s) ++ released m /\
    (forall p, p ∈ freed_of (data s) ++ freed_of (encoding s) ->
               exists c, heap m' !! p = Some (Freed c)) /\
    match iec16022ecc200 wh.1 wh.2 len' msg' with
    | None =>
        heap m' !! semacode
          = Some (Live (Struct (mk_semacode wh.1 wh.2 0 0 0 NULL NULL))) /\
        dom (heap m') = dom (heap m)
    | Some o =>
        exists grid enc,
          grid <> NULL /\ enc <> NULL /\ grid <> enc /\
          heap m !! grid = None /\ heap m !! enc = None /\
          heap m' !! semacode
            = Some (Live (Struct (mk_semacode (out_W o) (out_H o) (out_len o)
                                              (out_max o) (out_ecc o) enc grid))) /\
          heap m' !! grid = Some (Live (Bytes (out_grid o))) /\
          heap m' !! enc = Some (Live (Bytes (out_encoding o)))
    end.
Proof.
  intros Hok Hmsg Hlen msg' wh len'.
  rewrite (encode_string_prepare m semacode s len message cstr spare rest Hok Hmsg Hlen).
  destruct (store_ok_apart _ _ _ _ _ _ _ Hok Hmsg) as (Hsd & Hse & Hsm).
  destruct Hok as [Hp Hs Hd He Hde]. destruct Hmsg as [Hmp Hmb Hmc Hmd Hme].
  fold msg' wh len'.
  set (hints := mk_semacode wh.1 wh.2 0 0 0 NULL NULL).
  set (m2 := release (encoding s) (release (data s) m)).
  set (m5 := set_heap _ m2).
  assert (Hs5 : heap m5 !! semacode = Some (Live (Struct hints)))
    by (unfold m5; simpl; by rewrite lookup_insert_eq).
  assert (Hm5 : heap m5 !! message = Some (Live (Bytes msg'))).
  { unfold m5. simpl. rewrite lookup_insert_ne by done.
    by rewrite lookup_insert_eq. }
  assert (Hrel : released m5 = freed_of (encoding s) ++ freed_of (data s) ++ released m).
  { unfold m5, m2. simpl. rewrite release_released, release_released; [done|done|].
    destruct He as [?|[bs Hb]]; [by left|]. right. exists bs.
    destruct Hde as [Hd0|Hne]; [by rewrite Hd0, release_NULL|].
    by rewrite release_lookup_ne. }
  assert (Hfreed : forall p, p ∈ freed_of (data s) ++ freed_of (encoding s) ->
                     p <> NULL /\ exists c, heap m5 !! p = Some (Freed c)).
  { intros p Hin. unfold m5. simpl.
    apply elem_of_app in Hin as [Hin|Hin]; unfold freed_of in Hin;
      case_decide as Hn; try (by apply elem_of_nil in Hin);
      apply list_elem_of_singleton in Hin; subst p; (split; [done|]).
    - rewrite !lookup_insert_ne by done. unfold m2.
      destruct Hd as [?|[bs Hb]]; [done|]. exists (Bytes bs).
      destruct Hde as [?|Hne]; [done|].
      rewrite release_lookup_ne by done. by apply release_lookup.
    - rewrite !lookup_insert_ne by done. unfold m2.
      destruct He as [?|[bs Hb]]; [done|]. exists (Bytes bs).
      apply release_lookup; [done|].
      destruct Hde as [Hd0|Hne]; [by rewrite Hd0, release_NULL|].
      by rewrite release_lookup_ne. }
  assert (Hdom : dom (heap m5) = dom (heap m)).
  { unfold m5. simpl. rewrite dom_insert_lookup_L.
    2:{ rewrite lookup_insert_ne by done. unfold m2.
        rewrite !release_lookup_ne by done. by rewrite Hs. }
    rewrite dom_insert_lookup_L.
    2:{ unfold m2. rewrite !release_lookup_ne by done. by rewrite Hmb. }
    unfold m2. by rewrite !release_dom. }
  unfold call_iec16022ecc200.
  rewrite !bind_assoc.
  rewrite (bind_Ok _ _ _ _ _ (load_struct_live m5 semacode hints Hp Hs5)).
  rewrite !bind_assoc.
  rewrite (bind_Ok _ _ _ _ _ (load_bytes_live m5 message msg' Hmp Hm5)).
  rewrite !bind_assoc.
  set (m6 := mk_memory (heap m5) (rdata m5) (released m5)
                       (mk_call wh.1 wh.2 len' msg' :: calls m5)).
  rewrite (bind_Ok _ _ m5 tt m6) by reflexivity.
  cbn [width height hints].
  destruct (iec16022ecc200 wh.1 wh.2 len' msg') as [o|] eqn:Hc.
  - destruct (malloc_fresh (Bytes (out_grid o)) m6) as (grid & Hg & Hgn & Hgf).
    rewrite !bind_assoc, (bind_Ok _ _ _ _ _ Hg).
    set (m7 := set_heap _ m6).
    destruct (malloc_fresh (Bytes (out_encoding o)) m7) as (enc & Hen & Henn & Hef).
    rewrite !bind_assoc, (bind_Ok _ _ _ _ _ Hen).
    set (m8 := set_heap _ m7).
    assert (Hge : grid <> enc).
    { intros ->. unfold m7 in Hef. simpl in Hef.
      by rewrite lookup_insert_eq in Hef. }
    assert (Hef5 : heap m5 !! enc = None).
    { unfold m7 in Hef. simpl in Hef. by rewrite lookup_insert_ne in Hef. }
    change (heap m5 !! grid = None) in Hgf.
    assert (Hgs : grid <> semacode) by congruence.
    assert (Hes : enc <> semacode) by congruence.
    assert (Hgm : grid <> message) by congruence.
    assert (Hem : enc <> message) by congruence.
    assert (Hs8 : heap m8 !! semacode = Some (Live (Struct hints))).
    { unfold m8, m7. simpl. rewrite !lookup_insert_ne by done. exact Hs5. }
    rewrite !bind_assoc.
    rewrite (bind_Ok _ _ _ _ _ (store_struct_live m8 semacode hints _ Hp Hs8)).
    set (m9 := set_heap _ m8).
    rewrite (bind_Ok _ _ m9 grid m9) by reflexivity.
    assert (Hs9 : heap m9 !! semacode
                  = Some (Live (Struct (mk_semacode (out_W o) (out_H o) (out_len o)
                                         (out_max o) (out_ecc o) enc NULL))))
      by (unfold m9; simpl; by rewrite lookup_insert_eq).
    rewrite (bind_Ok _ _ _ _ _ (load_struct_live m9 semacode _ Hp Hs9)).
    rewrite (bind_Ok _ _ _ _ _ (store_struct_live m9 semacode _ _ Hp Hs9)).
    eexists. split; [reflexivity|]. simpl.
    split. { rewrite !lookup_insert_ne by done. by rewrite lookup_insert_eq. }
    split; [unfold m2; by rewrite !release_calls|].
    split; [unfold m2; by rewrite !release_rdata|].
    split; [exact Hrel|].
    split.
    { intros p Hin. destruct (Hfreed p Hin) as (Hpn & c & Hpc). exists c.
      do 2 rewrite (lookup_insert_ne _ semacode p) by congruence.
      rewrite (lookup_insert_ne _ enc p) by congruence.
      rewrite (lookup_insert_ne _ grid p) by congruence. exact Hpc. }
    exists grid, enc. repeat split; try done.
    + apply not_elem_of_dom. rewrite <- Hdom. by apply not_elem_of_dom.
    + apply not_elem_of_dom. rewrite <- Hdom. by apply not_elem_of_dom.
    + by rewrite lookup_insert_eq.
    + do 2 rewrite (lookup_insert_ne _ semacode grid) by done.
      rewrite lookup_insert_ne by done. by rewrite lookup_insert_eq.
    + do 2 rewrite (lookup_insert_ne _ semacode enc) by done.
      by rewrite lookup_insert_eq.
  - rewrite (bind_Ok _ _ m6 NULL m6) by reflexivity.
    assert (Hs6 : heap m6 !! semacode = Some (Live (Struct hints))) by exact Hs5.
    rewrite (bind_Ok _ _ _ _ _ (load_struct_live m6 semacode _ Hp Hs6)).
    rewrite (bind_Ok _ _ _ _ _ (store_struct_live m6 semacode _ _ Hp Hs6)).
    eexists. split; [reflexivity|]. simpl.
    split. { rewrite !lookup_insert_ne by done. by rewrite lookup_insert_eq. }
    split; [unfold m2; by rewrite !release_calls|].
    split; [unfold m2; by rewrite !release_rdata|].
    split; [exact Hrel|].
    split.
    { intros p Hin. destruct (Hfreed p Hin) as (Hpn & c & Hpc). exists c.
      rewrite (lookup_insert_ne _ semacode p) by congruence. exact Hpc. }
    split; [by rewrite lookup_insert_eq|].
    rewrite dom_insert_lookup_L; [exact Hdom|]. by rewrite lookup_insert_eq.
Qed.

End EncodeString.

(** ** Rejected input *)

Section Lifecycle.
Context `{Codec}.

(** A message of length zero is rejected before anything is released or
    written: encode_string returns NULL and the memory is the same. *)
Lemma encode_string_rejects m semacode len message :
  len < 1 -> encode_string semacode len message m = Ok NULL m.
Proof.
  intros Hlen. unfold encode_string. by rewrite decide_True by auto.
Qed.

(** The constructor on a String is encode_string on its length and buffer;
    the result of encode_string is dropped. *)
Lemma semacode_init_run m self semacode r x m' :
  rdata m !! self = Some semacode ->
  encode_string semacode (wrap_int (rs_len r)) (rs_ptr r) m = Ok x m' ->
  semacode_init self (T_STRING r) m = Ok (Object self) m'.
Proof.
  intros Hself Hrun. unfold semacode_init, Data_Get_Struct. simpl.
  unfold bind at 1. rewrite Hself.
  rewrite (bind_Ok _ _ m (rs_len r, T_STRING r) m) by reflexivity.
  rewrite (bind_Ok _ _ m (rs_ptr r, T_STRING r) m) by reflexivity. cbn [fst snd].
  by rewrite (bind_Ok _ _ _ _ _ Hrun).
Qed.

(** Through the constructor the rejection is silent and changes nothing. *)
Lemma semacode_init_rejects m self semacode r :
  rdata m !! self = Some semacode -> wrap_int (rs_len r) < 1 ->
  semacode_init self (T_STRING r) m = Ok (Object self) m.
Proof.
  intros Hself Hlen.
  exact (semacode_init_run m self semacode r NULL m Hself
           (encode_string_rejects m semacode _ _ Hlen)).
Qed.

(** ** Re-encoding *)

(** Whenever the store holds bits, the [encode] method releases them and
    encode_string, reading the same pointer from the record, releases them
    again. *)
Lemma semacode_encode_releases_twice m self semacode s bits r :
  rdata m !! self = Some semacode -> semacode <> NULL ->
  heap m !! semacode = Some (Live (Struct s)) ->
  data s <> NULL -> heap m !! data s = Some (Live (Bytes bits)) ->
  rs_ptr r <> NULL -> 1 <= wrap_int (rs_len r) ->
  semacode_encode self (T_STRING r) m
  = Fault (DoubleFree (data s)) (release (data s) m).
Proof.
  intros Hself Hp Hs Hd Hb Hr Hlen.
  assert (Hsd : semacode <> data s) by congruence.
  unfold semacode_encode, Data_Get_Struct. simpl.
  unfold bind at 1. rewrite Hself.
  rewrite (bind_Ok _ _ _ _ _ (load_struct_live m semacode s Hp Hs)).
  rewrite (bind_Ok _ _ m _ _
    (eq_trans (guarded_free _ _) (free_owned m (data s) (or_intror (ex_intro _ bits Hb))))).
  set (m1 := release (data s) m).
  rewrite (bind_Ok _ _ m1 (rs_len r, T_STRING r) m1) by reflexivity.
  rewrite (bind_Ok _ _ m1 (rs_ptr r, T_STRING r) m1) by reflexivity. cbn [fst snd].
  apply bind_Fault. unfold encode_string.
  rewrite decide_False by (intros [?|[?|?]]; [done|done|lia]).
  assert (Hs1 : heap m1 !! semacode = Some (Live (Struct s)))
    by (unfold m1; by rewrite release_lookup_ne).
  rewrite (bind_Ok _ _ _ _ _ (load_struct_live m1 semacode s Hp Hs1)).
  apply bind_Fault. rewrite guarded_free.
  apply (free_released m1 (data s) (Bytes bits)); [|done].
  unfold m1. by apply release_lookup.
Qed.

(** Whenever the store is encoded and the String is empty, the [encode]
    method has released the bits by the time encode_string rejects the
    message; the object is left without a record, and the grid is built from
    the released block. *)
Lemma semacode_encode_rejects_after_release m self semacode s bits r :
  encoded m self semacode s bits -> wrap_int (rs_len r) < 1 ->
  exists m',
    semacode_encode self (T_STRING r) m = Fault (UseAfterFree (data s)) m' /\
    heap m' = heap (release (data s) m) /\
    heap m' !! data s = Some (Freed (Bytes bits)) /\
    heap m' !! semacode = Some (Live (Struct s)) /\
    released m' = data s :: released m /\
    rdata m' = <[self := NULL]> (rdata m).
Proof.
  intros He Hlen. destruct (encoded_dims _ _ _ _ _ He) as (Hw & Hh & _ & _).
  destruct He as [Hself Hp Hs Hd Hb Hw0 Hh0 _ _].
  assert (Hsd : semacode <> data s) by congruence.
  unfold semacode_encode, Data_Get_Struct. simpl.
  unfold bind at 1. rewrite Hself.
  rewrite (bind_Ok _ _ _ _ _ (load_struct_live m semacode s Hp Hs)).
  rewrite (bind_Ok _ _ m _ _
    (eq_trans (guarded_free _ _) (free_owned m (data s) (or_intror (ex_intro _ bits Hb))))).
  set (m1 := release (data s) m).
  rewrite (bind_Ok _ _ m1 (rs_len r, T_STRING r) m1) by reflexivity.
  rewrite (bind_Ok _ _ m1 (rs_ptr r, T_STRING r) m1) by reflexivity. cbn [fst snd].
  rewrite (bind_Ok _ _ _ _ _ (encode_string_rejects m1 semacode _ _ Hlen)).
  set (m2 := mk_memory (heap m1) (<[self := NULL]> (rdata m1)) (released m1) (calls m1)).
  rewrite (bind_Ok _ _ m1 tt m2) by reflexivity.
  assert (Hs2 : heap m2 !! semacode = Some (Live (Struct s)))
    by (unfold m2, m1; simpl; by rewrite release_lookup_ne).
  assert (Hd2 : heap m2 !! data s = Some (Freed (Bytes bits)))
    by (unfold m2, m1; simpl; by apply release_lookup).
  exists m2. split.
  - unfold semacode_grid.
    rewrite (bind_Ok _ _ _ _ _ (load_struct_live m2 semacode s Hp Hs2)).
    rewrite (bind_Ok _ _ _ _ _ (rb_ary_new2_run (height s) m2 ltac:(lia))).
    apply bind_Fault. rewrite rows_count by done.
    destruct (Z.to_nat (height s)) as [|y] eqn:Hy; [lia|].
    cbn [grid_rows].
    rewrite (bind_Ok _ _ _ _ _ (rb_ary_new2_run (width s) m2 ltac:(lia))).
    apply bind_Fault.
    destruct (Z.to_nat (width s)) as [|x] eqn:Hx; [lia|].
    cbn [grid_row]. apply bind_Fault.
    unfold load_char, load_bytes. do 2 apply bind_Fault.
    unfold load. rewrite decide_False by done. by rewrite Hd2.
  - repeat split; try done.
    + unfold m2, m1. simpl.
      rewrite release_released by eauto. unfold freed_of.
      by rewrite decide_False.
    + unfold m2, m1. simpl. by rewrite release_rdata.
Qed.

End Lifecycle.

(** ** What encode_string does with the codec and the caller's buffer *)

Section Encoding.
Context `{Codec}.


(** C6 (amended). For a non-empty payload of length [L] without a NUL byte,
    held in a terminated buffer with room for one more byte, and [L + 1] an
    [int], the codec is called once, with the length [L + 1] and with a
    message whose first [L + 1] bytes are the payload and one space, the
    terminator next. *)
Theorem encode_string_pads_payload m semacode s message payload spare rest :
  store_ok m semacode s ->
  message_ok m s message payload spare rest ->
  payload <> [] ->
  Z.of_nat (length payload) < INT_MAX ->
  exists m' c,
    encode_string semacode (Z.of_nat (length payload)) message m
      = Ok semacode m' /\
    calls m' = c :: calls m /\
    call_barcodelen c = Z.of_nat (length payload) + 1 /\
    take (length payload + 1) (call_barcode c) = payload ++ [SPACE] /\
    c_string (call_barcode c) = payload ++ [SPACE].
Proof.
  intros Hok Hmsg Hne Hmax.
  assert (Hlen : 1 <= Z.of_nat (length payload)).
  { destruct payload; [done|]. simpl. lia. }
  destruct (encode_string_run m semacode s _ message payload spare rest Hok Hmsg Hlen)
    as (m' & Hrun & _ & Hcalls & _).
  eexists m', _. split; [done|]. split; [done|]. simpl.
  split; [apply wrap_int_id; unfold INT_MAX in *; lia|].
  replace (payload ++ SPACE :: NUL :: rest)
    with ((payload ++ [SPACE]) ++ NUL :: rest) by (by rewrite <- app_assoc).
  split.
  - rewrite take_app_length'; [done|]. rewrite length_app. simpl. lia.
  - unfold c_string. rewrite strlen_c_string.
    + by rewrite take_app_length.
    + apply Forall_app. split; [by destruct Hmsg|]. by repeat constructor.
Qed.

(** C10 (amended). A call of the constructor with a String of length at
    least one writes into the String's own buffer, at the address RSTRING_PTR
    gives and not in a copy: a space goes over the first NUL of the buffer and
    a NUL over the byte after it, the block keeping its size, so that the
    buffer read as a C string ends in one more space.  The String object is
    not extended: its recorded length is never written, and when its payload
    has no NUL byte (the first NUL is the terminator) the bytes of the String
    are after the call what they were before. *)
Theorem semacode_init_writes_caller_buffer m self semacode s r cstr spare rest :
  rdata m !! self = Some semacode ->
  store_ok m semacode s ->
  message_ok m s (rs_ptr r) cstr spare rest ->
  1 <= rs_len r <= INT_MAX ->
  exists m' before after,
    semacode_init self (T_STRING r) m = Ok (Object self) m' /\
    heap m !! rs_ptr r = Some (Live (Bytes before)) /\
    heap m' !! rs_ptr r = Some (Live (Bytes after)) /\
    before = cstr ++ NUL :: spare :: rest /\
    after = cstr ++ SPACE :: NUL :: rest /\
    c_string before = cstr /\
    c_string after = cstr ++ [SPACE] /\
    length after = length before /\
    (rs_len r = Z.of_nat (length cstr) ->
     rstring_value m r = Some cstr /\ rstring_value m' r = Some cstr).
Proof.
  intros Hself Hok Hmsg Hlen.
  assert (Hl : 1 <= wrap_int (rs_len r))
    by (rewrite wrap_int_id; unfold INT_MAX in *; lia).
  destruct (encode_string_run m semacode s _ (rs_ptr r) cstr spare rest Hok Hmsg Hl)
    as (m' & Hrun & Hbuf & _).
  exists m', (cstr ++ NUL :: spare :: rest), (cstr ++ SPACE :: NUL :: rest).
  split; [exact (semacode_init_run _ _ _ _ _ _ Hself Hrun)|].
  assert (Hb : heap m !! rs_ptr r = Some (Live (Bytes (cstr ++ NUL :: spare :: rest))))
    by (by destruct Hmsg).
  split; [done|]. split; [done|]. split; [done|]. split; [done|].
  assert (Hc : Forall (fun c => c <> NUL) cstr) by (by destruct Hmsg).
  split; [|split; [|split]].
  - unfold c_string. rewrite strlen_c_string by done. by rewrite take_app_length.
  - replace (cstr ++ SPACE :: NUL :: rest)
      with ((cstr ++ [SPACE]) ++ NUL :: rest) by (by rewrite <- app_assoc).
    unfold c_string. rewrite strlen_c_string.
    + by rewrite take_app_length.
    + apply Forall_app. split; [done|]. by repeat constructor.
  - rewrite !length_app. simpl. lia.
  - intros Hn. unfold rstring_value. rewrite Hb, Hbuf, Hn, Nat2Z.id.
    by rewrite !take_app_length.
Qed.

(** When the codec succeeds with a well-formed symbol, the constructor leaves
    the store encoded with the bits and the dimensions the codec gave: the
    encoded stores of the views are the ones the lifecycle produces. *)
Lemma semacode_init_encodes m self semacode s r cstr spare rest o :
  rdata m !! self = Some semacode ->
  store_ok m semacode s ->
  message_ok m s (rs_ptr r) cstr spare rest ->
  1 <= rs_len r <= INT_MAX ->
  (let msg' := cstr ++ SPACE :: NUL :: rest in
   let wh := iec16022init 0 0 msg' in
   iec16022ecc200 wh.1 wh.2 (wrap_int (wrap_int (rs_len r) + 1)) msg' = Some o) ->
  0 < out_W o -> 0 < out_H o ->
  Z.of_nat (length (out_grid o)) = out_W o * out_H o ->
  out_W o * out_H o <= INT_MAX ->
  exists m' s',
    semacode_init self (T_STRING r) m = Ok (Object self) m' /\
    encoded m' self semacode s' (out_grid o) /\
    width s' = out_W o /\ height s' = out_H o.
Proof.
  intros Hself Hok Hmsg Hlen Hsome HW HH Hsz Hmax.
  assert (Hl : 1 <= wrap_int (rs_len r))
    by (rewrite wrap_int_id; unfold INT_MAX in *; lia).
  destruct (encode_string_run m semacode s _ (rs_ptr r) cstr spare rest Hok Hmsg Hl)
    as (m' & Hrun & _ & _ & Hrd & _ & _ & Hres).
  cbv zeta in Hsome, Hres. rewrite Hsome in Hres.
  destruct Hres as (grid & enc & Hg & _ & _ & _ & _ & Hs' & Hgrid & _).
  exists m', (mk_semacode (out_W o) (out_H o) (out_len o) (out_max o)
                          (out_ecc o) enc grid).
  split; [exact (semacode_init_run _ _ _ _ _ _ Hself Hrun)|].
  split; [|done]. split; try done.
  - by rewrite Hrd.
  - by destruct Hok.
Qed.

End Encoding.

(** ** Destruction *)

(** semacode_free releases the two buffers and the record, but clears only
    the first [sizeof(semacode)] bytes of the record: the released record
    still holds both pointers, and a second call reads a released record. *)
Lemma semacode_free_run m semacode s :
  store_ok m semacode s -> data s <> NULL -> encoding s <> NULL ->
  exists m',
    semacode_free semacode m = Ok tt m' /\
    released m' = semacode :: data s :: encoding s :: released m /\
    heap m' !! semacode = Some (Freed (Struct (bzero_semacode sizeof_pointer s))) /\
    semacode_free semacode m' = Fault (UseAfterFree semacode) m'.
Proof.
  intros [Hp Hs Hd He Hde] Hdn Hen.
  destruct Hd as [?|[bd Hd]]; [done|]. destruct He as [?|[be He]]; [done|].
  destruct Hde as [?|Hde]; [done|].
  assert (Hsd : semacode <> data s) by congruence.
  assert (Hse : semacode <> encoding s) by congruence.
  unfold semacode_free at 1. rewrite decide_True by done.
  rewrite (bind_Ok _ _ _ _ _ (load_struct_live m semacode s Hp Hs)).
  rewrite decide_True by done.
  rewrite (bind_Ok _ _ _ _ _ (free_owned m (encoding s) (or_intror (ex_intro _ be He)))).
  set (m1 := release (encoding s) m).
  assert (Hs1 : heap m1 !! semacode = Some (Live (Struct s)))
    by (unfold m1; by rewrite release_lookup_ne).
  assert (Hd1 : heap m1 !! data s = Some (Live (Bytes bd)))
    by (unfold m1; by rewrite release_lookup_ne).
  rewrite (bind_Ok _ _ _ _ _ (load_struct_live m1 semacode s Hp Hs1)).
  rewrite (bind_Ok _ _ _ _ _ (free_owned m1 (data s) (or_intror (ex_intro _ bd Hd1)))).
  set (m2 := release (data s) m1).
  assert (Hs2 : heap m2 !! semacode = Some (Live (Struct s)))
    by (unfold m2; by rewrite release_lookup_ne).
  rewrite (bind_Ok _ _ _ _ _ (load_struct_live m2 semacode s Hp Hs2)).
  rewrite (bind_Ok _ _ _ _ _ (store_struct_live m2 semacode s _ Hp Hs2)).
  set (m3 := set_heap _ m2).
  assert (Hs3 : heap m3 !! semacode
                = Some (Live (Struct (bzero_semacode sizeof_pointer s))))
    by (unfold m3; simpl; by rewrite lookup_insert_eq).
  unfold free. rewrite decide_False by done. rewrite Hs3.
  eexists. split; [reflexivity|]. simpl.
  split.
  { unfold m2. rewrite release_released by eauto. unfold m1.
    rewrite release_released by eauto. unfold freed_of.
    by rewrite !decide_False by done. }
  split; [by rewrite lookup_insert_eq|].
  unfold semacode_free. rewrite decide_True by done.
  apply bind_Fault. unfold load_struct. apply bind_Fault.
  unfold load. rewrite decide_False by done. simpl.
  by rewrite lookup_insert_eq.
Qed.

(** ** The accessors of an empty store *)

Lemma semacode_encoded_no_codewords m self semacode s :
  rdata m !! self = Some semacode -> semacode <> NULL ->
  heap m !! semacode = Some (Live (Struct s)) -> encoding s = NULL ->
  semacode_encoded self m = Raise (ArgumentError "NULL pointer given") m.
Proof.
  intros Hself Hp Hs He. unfold semacode_encoded, Data_Get_Struct.
  unfold bind at 1. rewrite Hself.
  rewrite (bind_Ok _ _ _ _ _ (load_struct_live m semacode s Hp Hs)).
  unfold rb_str_new2. by rewrite decide_True.
Qed.

Lemma semacode_data_no_bits m self semacode s :
  rdata m !! self = Some semacode -> semacode <> NULL ->
  heap m !! semacode = Some (Live (Struct s)) -> data s = NULL ->
  semacode_data self m = Ok Qnil m.
Proof.
  intros Hself Hp Hs Hd. unfold semacode_data, Data_Get_Struct.
  unfold bind at 1. rewrite Hself.
  rewrite (bind_Ok _ _ _ _ _ (load_struct_live m semacode s Hp Hs)).
  by rewrite decide_True.
Qed.

Lemma int_accessor_run field m self semacode s :
  rdata m !! self = Some semacode -> semacode <> NULL ->
  heap m !! semacode = Some (Live (Struct s)) ->
  int_accessor field self m = Ok (Fixnum (field s)) m.
Proof.
  intros Hself Hp Hs. unfold int_accessor, Data_Get_Struct.
  unfold bind at 1. rewrite Hself.
  by rewrite (bind_Ok _ _ _ _ _ (load_struct_live m semacode s Hp Hs)).
Qed.

(** ** A scenario: [Encoder.new("A")], then the calls that go wrong *)

Lemma memory_A_encoded : encoded memory_A 0%N 4%N store_A bits_A.
Proof. split; try (vm_compute; done). Defined.

Lemma memory_new_store :
  rdata memory_new !! 0%N = Some 4%N /\
  heap memory_new !! 4%N = Some (Live (Struct zero_semacode)).
Proof. split; vm_compute; reflexivity. Qed.

Lemma memory_A_store_ok : store_ok memory_A 4%N store_A.
Proof.
  split; [done|vm_compute; reflexivity| | |right; done].
  - right. eexists. vm_compute. reflexivity.
  - right. eexists. vm_compute. reflexivity.
Defined.

Lemma memory_new_store_ok : store_ok memory_new 4%N zero_semacode.
Proof.
  split; [done|vm_compute; reflexivity|by left|by left|by left].
Defined.

Lemma memory_A_string_B :
  message_ok memory_A store_A 2%N ["B"%char] NUL [].
Proof.
  split; [done|vm_compute; reflexivity| |done|done].
  repeat constructor. done.
Defined.

Lemma memory_new_string_A :
  message_ok memory_new zero_semacode 1%N ["A"%char] NUL [].
Proof.
  split; [done|vm_compute; reflexivity| |done|done].
  repeat constructor. done.
Defined.

Example semacode_data_A :
  semacode_data 0%N memory_A
  = Ok (Array [Array [Qfalse; Qtrue; Qtrue]; Array [Qtrue; Qfalse; Qfalse]])
       memory_A.
Proof. vm_compute. reflexivity. Qed.

Example semacode_to_s_A :
  semacode_to_s 0%N memory_A
  = Ok (Str (String.list_ascii_of_string "011,100,")) memory_A.
Proof. vm_compute. reflexivity. Qed.

(** A String whose buffer ends at its terminator has no room for the space's
    terminator: strcat runs off the block. *)
Example strcat_without_room :
  exists m p,
    malloc (Bytes ["A"; "000"]%char) empty_memory = Ok p m /\
    strcat p [SPACE] m = Fault (OutOfBounds p 2) m.
Proof. eexists _, _. split; vm_compute; reflexivity. Qed.

(** With a codec that finds no encoding the constructor returns the object,
    its store empty, and both views are [nil]; the [encode] method on the new
    store goes on to build the grid from the hints and reads through the NULL
    [data]. *)
Example constructor_after_codec_failure :
  exists m',
    @semacode_init failing_codec 0%N string_A memory_new = Ok (Object 0%N) m' /\
    heap m' !! 4%N = Some (Live (Struct (mk_semacode 3 2 0 0 0 NULL NULL))) /\
    semacode_data 0%N m' = Ok Qnil m' /\
    semacode_to_s 0%N m' = Ok Qnil m'.
Proof.
  eexists. split; [vm_compute; reflexivity|].
  repeat split; vm_compute; reflexivity.
Qed.

Example encode_after_codec_failure :
  exists m',
    @semacode_encode failing_codec 0%N string_A memory_new = Fault NullDeref m'.
Proof. eexists. vm_compute. reflexivity. Qed.

(** C1 (the source departs from it). After [Encoder.new("A")], the call
    [encode("B")] hands the bits of ["A"], block 5, to [free] in
    semacode_encode and a second time in encode_string: the run ends in a
    double release, with the codewords of ["A"], block 6, still live. *)
Theorem reencode_releases_bits_twice :
  exists m',
    @semacode_encode demo_codec 0%N string_B memory_A
      = Fault (DoubleFree 5%N) m' /\
    released m' = [5%N] /\
    heap m' !! 5%N = Some (Freed (Bytes bits_A)) /\
    heap m' !! 6%N = Some (Live (Bytes ["A"; "B"; "000"]%char)).
Proof.
  eexists. split; [vm_compute; reflexivity|].
  repeat split; vm_compute; reflexivity.
Qed.

(** C2 (the source departs from it). After [Encoder.new("A")], the method
    [encode] on the empty String releases the bits of ["A"], block 5, before
    encode_string rejects the message; the record keeps the released pointer,
    the object loses its record (DATA_PTR becomes NULL), no exception is
    raised and the grid is then read from the released block. *)
Theorem empty_payload_releases_bits :
  exists m',
    @semacode_encode demo_codec 0%N string_empty memory_A
      = Fault (UseAfterFree 5%N) m' /\
    released m' = [5%N] /\
    heap m' !! 5%N = Some (Freed (Bytes bits_A)) /\
    heap m' !! 4%N = Some (Live (Struct store_A)) /\
    rdata memory_A !! 0%N = Some 4%N /\
    rdata m' !! 0%N = Some NULL.
Proof.
  eexists. split; [vm_compute; reflexivity|].
  repeat split; vm_compute; reflexivity.
Qed.

(** C3 (the source departs from it). Destroying the store of
    [Encoder.new("A")] releases the codewords, the bits and the record once
    each, but clears only the width and the height: the released record
    still holds the other fields and both pointers, and a second destroy
    reads the released record. *)
Theorem destroy_twice_reads_released_record :
  exists m',
    semacode_free 4%N memory_A = Ok tt m' /\
    released m' = [4%N; 5%N; 6%N] /\
    heap m' !! 4%N = Some (Freed (Struct (mk_semacode 0 0 2 3 5 6%N 5%N))) /\
    semacode_free 4%N m' = Fault (UseAfterFree 4%N) m'.
Proof.
  destruct (semacode_free_run memory_A 4%N store_A memory_A_store_ok)
    as (m' & Hrun & Hrel & Hrec & Hagain); [done|done|].
  exists m'. repeat split; try done.
Qed.

(** C4 (the source departs from it). On a new store, before any encode, the
    [encoding] accessor raises ArgumentError: it passes the NULL codewords
    pointer to rb_str_new2.  The grid and string views return [nil] and the
    integer accessors return 0. *)
Theorem codewords_of_new_store_raise :
  semacode_encoded 0%N memory_new
    = Raise (ArgumentError "NULL pointer given") memory_new /\
  semacode_data 0%N memory_new = Ok Qnil memory_new /\
  semacode_to_s 0%N memory_new = Ok Qnil memory_new /\
  semacode_width 0%N memory_new = Ok (Fixnum 0) memory_new /\
  semacode_height 0%N memory_new = Ok (Fixnum 0) memory_new /\
  semacode_raw_encoded_length 0%N memory_new = Ok (Fixnum 0) memory_new /\
  semacode_symbol_size 0%N memory_new = Ok (Fixnum 0) memory_new /\
  semacode_ecc_bytes 0%N memory_new = Ok (Fixnum 0) memory_new.
Proof.
  destruct memory_new_store as [Hself Hs].
  split; [by apply (semacode_encoded_no_codewords _ _ 4%N zero_semacode)|].
  split; [by apply (semacode_data_no_bits _ _ 4%N zero_semacode)|].
  split.
  { apply (semacode_to_s_no_bits memory_new 0%N 4%N zero_semacode Hself); auto. }
  repeat split;
    by apply (int_accessor_run _ memory_new 0%N 4%N zero_semacode).
Qed.

(** ** Counterexamples and instances *)



(** C6, as the specification states it, fails: for the three-byte payload
    ['a'], NUL, ['b'] the space lands on the embedded NUL, and the four bytes
    the codec is given are not the payload followed by a space. *)
Lemma embedded_nul_not_padded :
  ~ @sees_padded_payload demo_codec memory_nul 4%N 5%N ["a"; "000"; "b"]%char.
Proof.
  intros (m' & c & Hrun & Hcalls & _ & Htake).
  vm_compute in Hrun. injection Hrun as <-.
  vm_compute in Hcalls. injection Hcalls as <-.
  vm_compute in Htake. discriminate.
Qed.

Lemma encode_string_pads_payload_witness :
  store_ok memory_new 4%N zero_semacode /\
  message_ok memory_new zero_semacode 1%N ["A"%char] NUL [] /\
  ["A"%char] <> [] /\
  1 < INT_MAX /\
  exists m' c,
    @encode_string demo_codec 4%N 1 1%N memory_new = Ok 4%N m' /\
    calls m' = c :: calls memory_new /\
    call_barcodelen c = 2 /\
    take 2 (call_barcode c) = ["A"; " "]%char /\
    c_string (call_barcode c) = ["A"; " "]%char.
Proof.
  split; [exact memory_new_store_ok|]. split; [exact memory_new_string_A|].
  split; [done|]. split; [done|].
  exact (@encode_string_pads_payload demo_codec memory_new 4%N zero_semacode
           1%N ["A"%char] NUL [] memory_new_store_ok memory_new_string_A
           ltac:(done) ltac:(done)).
Defined.

Lemma semacode_data_rows_witness :
  encoded memory_A 0%N 4%N store_A bits_A /\
  exists rows,
    semacode_data 0%N memory_A = Ok (Array rows) memory_A /\
    length rows = 2%nat /\
    forall r, (r < 2)%nat ->
      exists cells,
        rows !! r = Some (Array cells) /\
        length cells = 3%nat /\
        forall c, (c < 3)%nat ->
          exists b,
            bits_A !! ((2 - 1 - r) * 3 + c)%nat = Some b /\
            cells !! c = Some (if decide (b = NUL) then Qfalse else Qtrue).
Proof.
  split; [exact memory_A_encoded|].
  exact (semacode_data_rows memory_A 0%N 4%N store_A bits_A memory_A_encoded).
Defined.

Lemma semacode_to_s_groups_witness :
  semacode_to_s 0%N memory_new = Ok Qnil memory_new /\
  exists groups,
    semacode_to_s 0%N memory_A
      = Ok (Str (concat ((fun g => g ++ [","%char]) <$> groups))) memory_A /\
    length groups = 2%nat /\
    forall r, (r < 2)%nat ->
      exists g,
        groups !! r = Some g /\
        length g = 3%nat /\
        Forall (fun ch => ch = "0"%char \/ ch = "1"%char) g /\
        forall c, (c < 3)%nat ->
          exists b,
            bits_A !! ((2 - 1 - r) * 3 + c)%nat = Some b /\
            g !! c = Some (if decide (b = NUL) then "0"%char else "1"%char).
Proof.
  split.
  - apply (semacode_to_s_groups memory_new 0%N 4%N zero_semacode);
      [vm_compute; reflexivity|intros _; vm_compute; reflexivity|by right].
  - apply (semacode_to_s_groups memory_A 0%N 4%N store_A);
      [vm_compute; reflexivity|intros _; vm_compute; reflexivity|].
    exact memory_A_encoded.
Defined.

Lemma to_s_agrees_with_grid_witness :
  encoded memory_A 0%N 4%N store_A bits_A /\
  exists rows str,
    semacode_data 0%N memory_A = Ok (Array rows) memory_A /\
    semacode_to_s 0%N memory_A = Ok (Str str) memory_A /\
    forall r c, (r < 2)%nat -> (c < 3)%nat ->
      exists g cells ch v,
        groups_of str [] !! r = Some g /\ g !! c = Some ch /\
        rows !! r = Some (Array cells) /\ cells !! c = Some v /\
        (ch = "1"%char <-> v = Qtrue).
Proof.
  split; [exact memory_A_encoded|].
  exact (to_s_agrees_with_grid memory_A 0%N 4%N store_A bits_A memory_A_encoded).
Defined.

(** A String with a NUL inside is not kept: the space goes over the inner
    NUL and the terminator over the byte after it. *)
Example embedded_nul_payload_overwritten :
  rstring_value memory_nul (mk_rstring 3 5%N) = Some ["a"; "000"; "b"]%char /\
  rstring_value
    (memory_of (@semacode_init demo_codec 0%N (T_STRING (mk_rstring 3 5%N))
                               memory_nul))
    (mk_rstring 3 5%N) = Some ["a"; " "; "000"]%char.
Proof. split; vm_compute; reflexivity. Qed.

(** C10, as it is stated, fails: after [Encoder.new("A")] the caller's
    String is what it was, one byte long; it has not become ["A "]. *)
Lemma caller_string_not_extended :
  ~ @caller_string_extended demo_codec memory_new 0%N (mk_rstring 1 1%N).
Proof.
  intros (m' & payload & Hrun & Hbefore & Hafter).
  vm_compute in Hrun. injection Hrun as <-.
  vm_compute in Hbefore. injection Hbefore as <-.
  vm_compute in Hafter. discriminate.
Qed.

Lemma semacode_init_writes_caller_buffer_witness :
  rdata memory_new !! 0%N = Some 4%N /\
  store_ok memory_new 4%N zero_semacode /\
  message_ok memory_new zero_semacode 1%N ["A"%char] NUL [] /\
  1 <= 1 <= INT_MAX /\
  exists m' before after,
    @semacode_init demo_codec 0%N string_A memory_new = Ok (Object 0%N) m' /\
    heap memory_new !! 1%N = Some (Live (Bytes before)) /\
    heap m' !! 1%N = Some (Live (Bytes after)) /\
    before = ["A"; "000"; "000"]%char /\
    after = ["A"; " "; "000"]%char /\
    c_string before = ["A"%char] /\
    c_string after = ["A"; " "]%char /\
    length after = length before /\
    (1 = 1 ->
     rstring_value memory_new (mk_rstring 1 1%N) = Some ["A"%char] /\
     rstring_value m' (mk_rstring 1 1%N) = Some ["A"%char]).
Proof.
  split; [vm_compute; reflexivity|].
  split; [exact memory_new_store_ok|]. split; [exact memory_new_string_A|].
  split; [done|].
  exact (@semacode_init_writes_caller_buffer demo_codec memory_new 0%N 4%N
           zero_semacode (mk_rstring 1 1%N) ["A"%char] NUL []
           ltac:(vm_compute; reflexivity) memory_new_store_ok
           memory_new_string_A ltac:(done)).
Defined.

(** * Further properties of the extension *)

(** ** The views only read *)

Lemma read_only_ret {A} (a : A) : read_only (ret a).
Proof. by intros m. Qed.

Lemma read_only_undefined {A} f : read_only (@undefined A f).
Proof. by intros m. Qed.

Lemma read_only_raise {A} e : read_only (@rb_raise A e).
Proof. by intros m. Qed.

Lemma read_only_bind {A B} (c : M A) (k : A -> M B) :
  read_only c -> (forall a, read_only (k a)) -> read_only (bind c k).
Proof.
  intros Hc Hk m. unfold bind. specialize (Hc m).
  destruct (c m) as [a m'|e m'|f m']; simpl in Hc; subst m'; [apply Hk|done|done].
Qed.

Lemma read_only_load p : read_only (load p).
Proof.
  intros m. unfold load. case_decide; [done|].
  by destruct (heap m !! p) as [[c|c]|].
Qed.

Lemma read_only_load_struct p : read_only (load_struct p).
Proof.
  apply read_only_bind; [apply read_only_load|].
  intros [bs|s]; [apply read_only_undefined|apply read_only_ret].
Qed.

Lemma read_only_load_bytes p : read_only (load_bytes p).
Proof.
  apply read_only_bind; [apply read_only_load|].
  intros [bs|s]; [apply read_only_ret|apply read_only_undefined].
Qed.

Lemma read_only_load_char p i : read_only (load_char p i).
Proof.
  apply read_only_bind; [apply read_only_load_bytes|]. intros bs.
  case_decide; [|apply read_only_undefined].
  destruct (bs !! Z.to_nat i); [apply read_only_ret|apply read_only_undefined].
Qed.

Lemma read_only_Data_Get_Struct self : read_only (Data_Get_Struct self).
Proof. intros m. unfold Data_Get_Struct. by destruct (rdata m !! self). Qed.

Lemma read_only_grid_row bits w y n :
  forall x ary, read_only (grid_row bits w y n x ary).
Proof.
  induction n as [|n IH]; intros x ary; cbn [grid_row].
  - apply read_only_ret.
  - apply read_only_bind; [apply read_only_load_char|]. intros c. apply IH.
Qed.

Lemma read_only_rb_ary_new2 capa : read_only (rb_ary_new2 capa).
Proof.
  unfold rb_ary_new2. case_decide; [apply read_only_raise|apply read_only_ret].
Qed.

Lemma read_only_grid_rows bits w n :
  forall acc, read_only (grid_rows bits w n acc).
Proof.
  induction n as [|n IH]; intros acc; cbn [grid_rows].
  - apply read_only_ret.
  - apply read_only_bind; [apply read_only_rb_ary_new2|]. intros ary0.
    apply read_only_bind; [apply read_only_grid_row|]. intros ary. apply IH.
Qed.

Lemma read_only_to_s_row bits w y n :
  forall x str, read_only (to_s_row bits w y n x str).
Proof.
  induction n as [|n IH]; intros x str; cbn [to_s_row].
  - apply read_only_ret.
  - apply read_only_bind; [apply read_only_load_char|]. intros c. apply IH.
Qed.

Lemma read_only_to_s_rows bits w n :
  forall str, read_only (to_s_rows bits w n str).
Proof.
  induction n as [|n IH]; intros str; cbn [to_s_rows].
  - apply read_only_ret.
  - apply read_only_bind; [apply read_only_to_s_row|]. intros s. apply IH.
Qed.

Lemma read_only_semacode_grid semacode : read_only (semacode_grid semacode).
Proof.
  apply read_only_bind; [apply read_only_load_struct|]. intros s.
  apply read_only_bind; [apply read_only_rb_ary_new2|]. intros ary.
  apply read_only_bind; [apply read_only_grid_rows|]. intros rows.
  apply read_only_ret.
Qed.

Lemma read_only_rb_str_new2 p : read_only (rb_str_new2 p).
Proof.
  unfold rb_str_new2. case_decide; [apply read_only_raise|].
  apply read_only_bind; [apply read_only_load_bytes|]. intros bs.
  destruct (strlen bs); [apply read_only_ret|apply read_only_undefined].
Qed.

(** X1. The views and the accessors never change the memory: whatever the
    object and whatever the state of its store, and whether the call returns,
    raises or runs into a released or missing block, [data], [to_s],
    [encoding] and the integer accessors release nothing, allocate nothing
    and write nothing. *)
Theorem views_read_only self :
  read_only (semacode_data self) /\
  read_only (semacode_to_s self) /\
  read_only (semacode_encoded self) /\
  forall field, read_only (int_accessor field self).
Proof.
  repeat split.
  - apply read_only_bind; [apply read_only_Data_Get_Struct|]. intros p.
    apply read_only_bind; [apply read_only_load_struct|]. intros s.
    case_decide; [apply read_only_ret|apply read_only_semacode_grid].
  - apply read_only_bind; [apply read_only_Data_Get_Struct|]. intros p.
    case_decide; [apply read_only_ret|].
    apply read_only_bind; [apply read_only_load_struct|]. intros s.
    case_decide; [apply read_only_ret|].
    apply read_only_bind; [apply read_only_to_s_rows|]. intros str.
    apply read_only_ret.
  - apply read_only_bind; [apply read_only_Data_Get_Struct|]. intros p.
    apply read_only_bind; [apply read_only_load_struct|]. intros s.
    apply read_only_rb_str_new2.
  - intros field.
    apply read_only_bind; [apply read_only_Data_Get_Struct|]. intros p.
    apply read_only_bind; [apply read_only_load_struct|]. intros s.
    apply read_only_ret.
Qed.

(** ** Sizes and round trips of the views *)

Lemma rows_concat bits (w h : nat) :
  concat (bits_row bits w <$> seq 0 h) = take (h * w) bits.
Proof.
  induction h as [|h IH]; [done|].
  rewrite seq_S, fmap_app, concat_app, IH. cbn [fmap list_fmap concat].
  rewrite app_nil_r. unfold bits_row. cbn [Nat.add].
  rewrite take_take_drop. f_equal. lia.
Qed.

Lemma rev_fmap_top_down {A} (f : nat -> A) n :
  rev (f <$> top_down n) = f <$> seq 0 n.
Proof.
  induction n as [|n IH]; [done|].
  rewrite top_down_S, fmap_cons. cbn [rev]. by rewrite IH, seq_S, fmap_app.
Qed.

Lemma concat_fmap_fmap {A B} (f : A -> B) (ls : list (list A)) :
  concat ((fun l : list A => f <$> l) <$> ls) = f <$> concat ls.
Proof.
  induction ls as [|l ls IH]; [done|].
  cbn [fmap list_fmap concat]. rewrite fmap_app. f_equal. exact IH.
Qed.

(** X2. For an encoded store [length] (and [size]) returns the number of
    modules of the buffer, the product of the width and the height. *)
Theorem semacode_length_modules m self semacode s bits :
  encoded m self semacode s bits ->
  semacode_length self m = Ok (Fixnum (Z.of_nat (length bits))) m /\
  length bits = (Z.to_nat (width s) * Z.to_nat (height s))%nat.
Proof.
  intros He. destruct (encoded_dims _ _ _ _ _ He) as (_ & _ & _ & Hlen).
  destruct He as [Hself Hp Hs _ _ Hw Hh Hsz Hmax].
  split; [|lia]. unfold semacode_length.
  rewrite (int_accessor_run _ m self semacode s Hself Hp Hs).
  rewrite wrap_int_id by (unfold INT_MAX in *; nia).
  do 2 f_equal. lia.
Qed.

(** X3. Reading the rows of the grid view from the last to the first gives
    back the buffer, module by module: the grid drops, repeats and moves no
    module, it only turns the rows upside down. *)
Theorem grid_round_trip m self semacode s bits :
  encoded m self semacode s bits ->
  exists rows,
    semacode_data self m = Ok (Array rows) m /\
    concat (cells_of <$> rev rows) = truths bits.
Proof.
  intros He. destruct (encoded_dims _ _ _ _ _ He) as (_ & _ & _ & Hlen).
  eexists. split; [by apply (semacode_data_encoded _ _ _ _ _ He)|].
  rewrite rev_fmap_top_down, <- list_fmap_compose.
  transitivity (concat ((fun l : list char => Qbool <$> l) <$>
    (bits_row bits (Z.to_nat (width s)) <$> seq 0 (Z.to_nat (height s))))).
  { f_equal. by rewrite <- list_fmap_compose. }
  rewrite concat_fmap_fmap, rows_concat. unfold truths. f_equal.
  apply take_ge. lia.
Qed.

(** X4. The groups of the string view, read from the last to the first, spell
    the buffer module by module, ['1'] for a set module and ['0'] for a clear
    one: the string view can be parsed back into the bits. *)
Theorem to_s_round_trip m self semacode s bits :
  encoded m self semacode s bits ->
  exists str,
    semacode_to_s self m = Ok (Str str) m /\
    concat (rev (groups_of str [])) = digits bits.
Proof.
  intros He. destruct (encoded_dims _ _ _ _ _ He) as (_ & _ & _ & Hlen).
  exists (concat ((fun g => g ++ [","%char]) <$>
    ((fun y => digit <$> bits_row bits (Z.to_nat (width s)) y)
       <$> top_down (Z.to_nat (height s))))).
  split.
  { rewrite (semacode_to_s_encoded _ _ _ _ _ He).
    by rewrite <- list_fmap_compose. }
  rewrite groups_of_concat.
  2:{ apply Forall_fmap, Forall_forall. intros y _.
      apply Forall_fmap, Forall_forall. intros b _. apply digit_not_comma. }
  rewrite rev_fmap_top_down.
  transitivity (concat ((fun l : list char => digit <$> l) <$>
    (bits_row bits (Z.to_nat (width s)) <$> seq 0 (Z.to_nat (height s))))).
  { f_equal. by rewrite <- list_fmap_compose. }
  rewrite concat_fmap_fmap, rows_concat. unfold digits. f_equal.
  apply take_ge. lia.
Qed.

Lemma groups_length (gs : list (list char)) (w : nat) :
  Forall (fun g => length g = w) gs ->
  length (concat ((fun g => g ++ [","%char]) <$> gs)) = (length gs * (w + 1))%nat.
Proof.
  induction 1 as [|g gs Hg _ IH]; [done|].
  cbn [fmap list_fmap concat]. cbv beta in Hg.
  rewrite !length_app, IH. cbn [length]. unfold char in *. lia.
Qed.

Lemma filter_no_comma (g : list char) :
  Forall (fun ch => ch <> ","%char) g -> filter (fun ch => ch = ","%char) g = [].
Proof.
  induction 1 as [|ch g Hch _ IH]; [done|].
  by rewrite filter_cons_False.
Qed.

Lemma groups_commas (gs : list (list char)) :
  Forall (Forall (fun ch => ch <> ","%char)) gs ->
  length (filter (fun ch => ch = ","%char)
                 (concat ((fun g => g ++ [","%char]) <$> gs))) = length gs.
Proof.
  induction 1 as [|g gs Hg _ IH]; [done|].
  cbn [fmap list_fmap concat]. rewrite !filter_app, !length_app, IH.
  pose proof (filter_no_comma g Hg) as Hf. unfold char in *. rewrite Hf.
  by rewrite filter_cons_True.
Qed.

Lemma groups_last (gs : list (list char)) :
  gs <> [] -> last (concat ((fun g => g ++ [","%char]) <$> gs)) = Some ","%char.
Proof.
  induction gs as [|g gs IH]; [done|]. intros _.
  cbn [fmap list_fmap concat]. rewrite last_app.
  destruct gs as [|g' gs]; [apply last_snoc|]. by rewrite IH.
Qed.

Lemma top_down_bound n y : y ∈ top_down n -> (y < n)%nat.
Proof.
  induction n as [|n IH]; [by intros ?%elem_of_nil|].
  rewrite top_down_S. intros [->|Hy]%elem_of_cons; [lia|].
  specialize (IH Hy). lia.
Qed.

(** X5. For an encoded store the string view has [height * (width + 1)]
    characters, [height] of them commas, and the last one is a comma. *)
Theorem semacode_to_s_length m self semacode s bits :
  encoded m self semacode s bits ->
  exists str,
    semacode_to_s self m = Ok (Str str) m /\
    length str = (Z.to_nat (height s) * (Z.to_nat (width s) + 1))%nat /\
    length (filter (fun ch => ch = ","%char) str) = Z.to_nat (height s) /\
    last str = Some ","%char.
Proof.
  intros He. destruct (encoded_dims _ _ _ _ _ He) as (_ & Hh & _ & Hlen).
  exists (concat ((fun g => g ++ [","%char]) <$>
    ((fun y => digit <$> bits_row bits (Z.to_nat (width s)) y)
       <$> top_down (Z.to_nat (height s))))).
  split.
  { rewrite (semacode_to_s_encoded _ _ _ _ _ He).
    by rewrite <- list_fmap_compose. }
  split; [|split].
  - rewrite (groups_length _ (Z.to_nat (width s))).
    + by rewrite length_fmap, top_down_length.
    + apply Forall_fmap, Forall_forall. intros y Hy. simpl.
      rewrite length_fmap. apply (bits_row_length _ _ _ _ Hlen).
      by apply top_down_bound.
  - rewrite groups_commas; [by rewrite length_fmap, top_down_length|].
    apply Forall_fmap, Forall_forall. intros y _.
    apply Forall_fmap, Forall_forall. intros b _. apply digit_not_comma.
  - apply groups_last. intros Hnil. apply (f_equal length) in Hnil.
    rewrite length_fmap, top_down_length in Hnil. simpl in Hnil. lia.
Qed.

(** ** New objects *)

Lemma semacode_allocate_run m :
  exists self semacode m',
    semacode_allocate m = Ok self m' /\
    rdata m !! self = None /\ heap m !! semacode = None /\ semacode <> NULL /\
    rdata m' = <[self := semacode]> (rdata m) /\
    heap m' = <[semacode := Live (Struct zero_semacode)]> (heap m) /\
    released m' = released m /\ calls m' = calls m.
Proof.
  destruct (malloc_fresh (Struct zero_semacode) m) as (p & Hm & Hp & Hf).
  eexists _, p, _. split.
  { unfold semacode_allocate. rewrite (bind_Ok _ _ _ _ _ Hm). reflexivity. }
  simpl. repeat split; try done.
  apply not_elem_of_dom. apply is_fresh.
Qed.

(** X6. The allocator yields a new object, on a new record, with all fields
    zero and no buffer: no existing object or block is touched, the views of
    the new object are [nil] and its dimensions 0. *)
Theorem semacode_allocate_empty m :
  exists self semacode m',
    semacode_allocate m = Ok self m' /\
    rdata m !! self = None /\ heap m !! semacode = None /\ semacode <> NULL /\
    rdata m' !! self = Some semacode /\
    heap m' !! semacode = Some (Live (Struct zero_semacode)) /\
    (forall o, o <> self -> rdata m' !! o = rdata m !! o) /\
    (forall q, q <> semacode -> heap m' !! q = heap m !! q) /\
    released m' = released m /\
    semacode_data self m' = Ok Qnil m' /\
    semacode_to_s self m' = Ok Qnil m' /\
    semacode_width self m' = Ok (Fixnum 0) m' /\
    semacode_height self m' = Ok (Fixnum 0) m' /\
    semacode_length self m' = Ok (Fixnum 0) m'.
Proof.
  destruct (semacode_allocate_run m)
    as (self & p & m' & Hrun & Hself & Hp & Hn & Hrd & Hh & Hrel & _).
  assert (Hs : rdata m' !! self = Some p) by (by rewrite Hrd, lookup_insert_eq).
  assert (Hz : heap m' !! p = Some (Live (Struct zero_semacode)))
    by (by rewrite Hh, lookup_insert_eq).
  exists self, p, m'. repeat split; try done.
  - intros o Ho. by rewrite Hrd, lookup_insert_ne.
  - intros q Hq. by rewrite Hh, lookup_insert_ne.
  - by apply (semacode_data_no_bits _ _ p zero_semacode).
  - apply (semacode_to_s_no_bits _ _ p zero_semacode); auto.
  - exact (int_accessor_run width m' self p zero_semacode Hs Hn Hz).
  - exact (int_accessor_run height m' self p zero_semacode Hs Hn Hz).
  - unfold semacode_length.
    by rewrite (int_accessor_run _ m' self p zero_semacode Hs Hn Hz).
Qed.

Section Construction.
Context `{Codec}.

(** X7. [Encoder.new] on a String of length at least one, in a terminated
    buffer with room, for which the codec succeeds with a well-formed symbol:
    the result is a new object whose store is encoded with the bits of the
    codec, whose codewords are the codec's, and whose integer accessors
    return what the codec wrote: width, height, raw encoded length, symbol
    capacity and error-correction bytes. *)
Theorem Encoder_new_encodes m r cstr spare rest o :
  rs_ptr r <> NULL ->
  heap m !! rs_ptr r = Some (Live (Bytes (cstr ++ NUL :: spare :: rest))) ->
  Forall (fun c => c <> NUL) cstr ->
  1 <= rs_len r <= INT_MAX ->
  (let msg' := cstr ++ SPACE :: NUL :: rest in
   let wh := iec16022init 0 0 msg' in
   iec16022ecc200 wh.1 wh.2 (wrap_int (wrap_int (rs_len r) + 1)) msg' = Some o) ->
  symbol_ok o ->
  exists self semacode s' m',
    Encoder_new (T_STRING r) m = Ok (Object self) m' /\
    rdata m !! self = None /\
    encoded m' self semacode s' (out_grid o) /\
    heap m' !! encoding s' = Some (Live (Bytes (out_encoding o))) /\
    semacode_width self m' = Ok (Fixnum (out_W o)) m' /\
    semacode_height self m' = Ok (Fixnum (out_H o)) m' /\
    semacode_raw_encoded_length self m' = Ok (Fixnum (out_len o)) m' /\
    semacode_symbol_size self m' = Ok (Fixnum (out_max o)) m' /\
    semacode_ecc_bytes self m' = Ok (Fixnum (out_ecc o)) m'.
Proof.
  intros Hrp Hrb Hc Hlen Hsome (HW & HH & Hsz & Hmax).
  destruct (semacode_allocate_run m)
    as (self & p & m1 & Halloc & Hself & Hp & Hn & Hrd & Hh & _ & _).
  assert (Hpr : p <> rs_ptr r) by congruence.
  assert (Hok : store_ok m1 p zero_semacode).
  { split; [done| |by left|by left|by left]. by rewrite Hh, lookup_insert_eq. }
  assert (Hmsg : message_ok m1 zero_semacode (rs_ptr r) cstr spare rest).
  { split; try done. by rewrite Hh, lookup_insert_ne. }
  assert (Hl : 1 <= wrap_int (rs_len r))
    by (rewrite wrap_int_id; unfold INT_MAX in *; lia).
  destruct (encode_string_run m1 p zero_semacode _ (rs_ptr r) cstr spare rest Hok Hmsg Hl)
    as (m' & Hrun & _ & _ & Hrd' & _ & _ & Hres).
  cbv zeta in Hsome, Hres. rewrite Hsome in Hres.
  destruct Hres as (grid & enc & Hg & He & _ & _ & _ & Hs' & Hgrid & Henc).
  assert (Hs1 : rdata m1 !! self = Some p) by (by rewrite Hrd, lookup_insert_eq).
  assert (Hsf : rdata m' !! self = Some p) by (by rewrite Hrd').
  exists self, p, (mk_semacode (out_W o) (out_H o) (out_len o) (out_max o)
                              (out_ecc o) enc grid), m'.
  split.
  { unfold Encoder_new. rewrite (bind_Ok _ _ _ _ _ Halloc).
    exact (semacode_init_run _ _ _ _ _ _ Hs1 Hrun). }
  split; [done|]. split; [by split|]. split; [done|].
  assert (Hpn : p <> NULL) by done.
  split; [exact (int_accessor_run width m' self p _ Hsf Hpn Hs')|].
  split; [exact (int_accessor_run height m' self p _ Hsf Hpn Hs')|].
  split; [exact (int_accessor_run raw_encoded_length m' self p _ Hsf Hpn Hs')|].
  split; [exact (int_accessor_run symbol_capacity m' self p _ Hsf Hpn Hs')|].
  exact (int_accessor_run ecc_bytes m' self p _ Hsf Hpn Hs').
Qed.

End Construction.

(** ** encode_string as a step of the lifecycle *)

Section Replacement.
Context `{Codec}.

(** X8. encode_string keeps the store well-formed, whatever the codec
    answers: from a live record whose buffers are each absent or a live block
    of its own, it returns with a live record whose buffers are again each
    absent or a live block of its own, distinct from each other. *)
Theorem encode_string_keeps_store m semacode s len message cstr spare rest :
  store_ok m semacode s ->
  message_ok m s message cstr spare rest ->
  1 <= len ->
  exists m' s',
    encode_string semacode len message m = Ok semacode m' /\
    store_ok m' semacode s'.
Proof.
  intros Hok Hmsg Hlen.
  destruct (encode_string_run m semacode s len message cstr spare rest Hok Hmsg Hlen)
    as (m' & Hrun & _ & _ & _ & _ & _ & Hres).
  cbv zeta in Hres. destruct (iec16022ecc200 _ _ _ _) as [o|].
  - destruct Hres as (grid & enc & Hg & He & Hge & _ & _ & Hs' & Hgrid & Henc).
    eexists m', _. split; [done|].
    split; [by destruct Hok|exact Hs'|right|right|right]; simpl; eauto.
  - destruct Hres as [Hs' _]. eexists m', _. split; [done|].
    split; [by destruct Hok|exact Hs'|left|left|left]; done.
Qed.

(** X9. When the codec succeeds, encode_string replaces the buffers: the
    previous bits and codewords are released, once each and nothing else,
    and the record holds two new blocks, distinct from each other and from
    every block of the memory before, with the grid and the codewords of the
    codec, and the dimensions and counts the codec wrote. *)
Theorem encode_string_replaces_buffers m semacode s len message cstr spare rest o :
  store_ok m semacode s ->
  message_ok m s message cstr spare rest ->
  1 <= len ->
  (let msg' := cstr ++ SPACE :: NUL :: rest in
   let wh := iec16022init 0 0 msg' in
   iec16022ecc200 wh.1 wh.2 (wrap_int (len + 1)) msg' = Some o) ->
  exists m' grid enc,
    encode_string semacode len message m = Ok semacode m' /\
    heap m' !! semacode
      = Some (Live (Struct (mk_semacode (out_W o) (out_H o) (out_len o)
                                        (out_max o) (out_ecc o) enc grid))) /\
    grid <> NULL /\ enc <> NULL /\ grid <> enc /\
    heap m !! grid = None /\ heap m !! enc = None /\
    heap m' !! grid = Some (Live (Bytes (out_grid o))) /\
    heap m' !! enc = Some (Live (Bytes (out_encoding o))) /\
    released m' = freed_of (encoding s) ++ freed_of (data s) ++ released m /\
    (forall p, p ∈ freed_of (data s) ++ freed_of (encoding s) ->
               exists c, heap m' !! p = Some (Freed c)).
Proof.
  intros Hok Hmsg Hlen Hsome.
  destruct (encode_string_run m semacode s len message cstr spare rest Hok Hmsg Hlen)
    as (m' & Hrun & _ & _ & _ & Hrel & Hfreed & Hres).
  cbv zeta in Hsome, Hres. rewrite Hsome in Hres.
  destruct Hres as (grid & enc & Hg & He & Hge & Hgf & Hef & Hs' & Hgrid & Henc).
  by exists m', grid, enc.
Qed.

(** X10. The size hints the codec is given never come from the previous
    symbol: whatever the record held, the one call of iec16022ecc200 carries
    the dimensions that iec16022init answers, from width and height zero, on
    the very bytes the call passes as the message. *)
Theorem encode_string_hints_from_zero m semacode s len message cstr spare rest :
  store_ok m semacode s ->
  message_ok m s message cstr spare rest ->
  1 <= len ->
  exists m' c,
    encode_string semacode len message m = Ok semacode m' /\
    calls m' = c :: calls m /\
    (call_W c, call_H c) = iec16022init 0 0 (call_barcode c).
Proof.
  intros Hok Hmsg Hlen.
  destruct (encode_string_run m semacode s len message cstr spare rest Hok Hmsg Hlen)
    as (m' & Hrun & _ & Hcalls & _).
  eexists m', _. split; [done|]. split; [exact Hcalls|]. simpl.
  by destruct (iec16022init 0 0 _).
Qed.

(** X11. encode_string touches only its own: every block other than the
    record, the caller's buffer and the two previous buffers is after the call
    what it was before, released blocks included, and no object's DATA_PTR
    changes. *)
Theorem encode_string_frame m semacode s len message cstr spare rest :
  store_ok m semacode s ->
  message_ok m s message cstr spare rest ->
  1 <= len ->
  exists m',
    encode_string semacode len message m = Ok semacode m' /\
    rdata m' = rdata m /\
    forall q b,
      heap m !! q = Some b ->
      q <> semacode -> q <> message -> q <> data s -> q <> encoding s ->
      heap m' !! q = Some b.
Proof.
  intros Hok Hmsg Hlen.
  rewrite (encode_string_prepare m semacode s len message cstr spare rest Hok Hmsg Hlen).
  destruct (store_ok_apart _ _ _ _ _ _ _ Hok Hmsg) as (Hsd & Hse & Hsm).
  destruct Hok as [Hp Hs Hd He Hde]. destruct Hmsg as [Hmp Hmb Hmc Hmd Hme].
  set (msg' := cstr ++ SPACE :: NUL :: rest).
  set (wh := iec16022init 0 0 msg').
  set (hints := mk_semacode wh.1 wh.2 0 0 0 NULL NULL).
  set (m2 := release (encoding s) (release (data s) m)).
  set (m5 := set_heap _ m2).
  assert (Hs5 : heap m5 !! semacode = Some (Live (Struct hints)))
    by (unfold m5; simpl; by rewrite lookup_insert_eq).
  assert (Hm5 : heap m5 !! message = Some (Live (Bytes msg'))).
  { unfold m5. simpl. rewrite lookup_insert_ne by done.
    by rewrite lookup_insert_eq. }
  assert (Hrd5 : rdata m5 = rdata m)
    by (unfold m5, m2; simpl; by rewrite !release_rdata).
  assert (Hframe5 : forall q b,
            heap m !! q = Some b ->
            q <> semacode -> q <> message -> q <> data s -> q <> encoding s ->
            heap m5 !! q = Some b).
  { intros q b Hq H1 H2 H3 H4. unfold m5, m2. simpl.
    rewrite !lookup_insert_ne by done. by rewrite !release_lookup_ne. }
  unfold call_iec16022ecc200.
  rewrite !bind_assoc.
  rewrite (bind_Ok _ _ _ _ _ (load_struct_live m5 semacode hints Hp Hs5)).
  rewrite !bind_assoc.
  rewrite (bind_Ok _ _ _ _ _ (load_bytes_live m5 message msg' Hmp Hm5)).
  rewrite !bind_assoc.
  set (m6 := mk_memory (heap m5) (rdata m5) (released m5)
                       (mk_call wh.1 wh.2 (wrap_int (len + 1)) msg' :: calls m5)).
  rewrite (bind_Ok _ _ m5 tt m6) by reflexivity.
  cbn [width height hints].
  destruct (iec16022ecc200 wh.1 wh.2 (wrap_int (len + 1)) msg') as [o|].
  - destruct (malloc_fresh (Bytes (out_grid o)) m6) as (grid & Hg & Hgn & Hgf).
    rewrite !bind_assoc, (bind_Ok _ _ _ _ _ Hg).
    set (m7 := set_heap _ m6).
    destruct (malloc_fresh (Bytes (out_encoding o)) m7) as (enc & Hen & Henn & Hef).
    rewrite !bind_assoc, (bind_Ok _ _ _ _ _ Hen).
    set (m8 := set_heap _ m7).
    change (heap m5 !! grid = None) in Hgf.
    assert (Hef5 : heap m5 !! enc = None).
    { unfold m7 in Hef. simpl in Hef.
      destruct (decide (grid = enc)) as [->|Hne].
      - by rewrite lookup_insert_eq in Hef.
      - by rewrite lookup_insert_ne in Hef. }
    assert (Hs8 : heap m8 !! semacode = Some (Live (Struct hints))).
    { unfold m8, m7. simpl. rewrite !lookup_insert_ne by congruence. exact Hs5. }
    rewrite !bind_assoc.
    rewrite (bind_Ok _ _ _ _ _ (store_struct_live m8 semacode hints _ Hp Hs8)).
    set (m9 := set_heap _ m8).
    rewrite (bind_Ok _ _ m9 grid m9) by reflexivity.
    assert (Hs9 : heap m9 !! semacode
                  = Some (Live (Struct (mk_semacode (out_W o) (out_H o) (out_len o)
                                         (out_max o) (out_ecc o) enc NULL))))
      by (unfold m9; simpl; by rewrite lookup_insert_eq).
    rewrite (bind_Ok _ _ _ _ _ (load_struct_live m9 semacode _ Hp Hs9)).
    rewrite (bind_Ok _ _ _ _ _ (store_struct_live m9 semacode _ _ Hp Hs9)).
    eexists. split; [reflexivity|]. simpl. split; [exact Hrd5|].
    intros q b Hq H1 H2 H3 H4.
    pose proof (Hframe5 q b Hq H1 H2 H3 H4) as Hq5.
    do 2 rewrite (lookup_insert_ne _ semacode q) by done.
    rewrite (lookup_insert_ne _ enc q) by congruence.
    rewrite (lookup_insert_ne _ grid q) by congruence. exact Hq5.
  - rewrite (bind_Ok _ _ m6 NULL m6) by reflexivity.
    assert (Hs6 : heap m6 !! semacode = Some (Live (Struct hints))) by exact Hs5.
    rewrite (bind_Ok _ _ _ _ _ (load_struct_live m6 semacode _ Hp Hs6)).
    rewrite (bind_Ok _ _ _ _ _ (store_struct_live m6 semacode _ _ Hp Hs6)).
    eexists. split; [reflexivity|]. simpl. split; [exact Hrd5|].
    intros q b Hq H1 H2 H3 H4.
    pose proof (Hframe5 q b Hq H1 H2 H3 H4) as Hq5.
    rewrite (lookup_insert_ne _ semacode q) by done. exact Hq5.
Qed.

End Replacement.

(** ** The [encode] method where it works, and where it detaches the record *)

Section EncodeMethod.
Context `{Codec}.

(** X12. On a store without bits (new, or emptied by a failed encoding) the
    [encode] method works: for a String the codec encodes into a well-formed
    symbol, it leaves the object on the same record, encoded with the bits of
    the codec, and the grid it returns is the grid [data] returns
    afterwards. *)
Theorem semacode_encode_first_encoding m self semacode s r cstr spare rest o :
  rdata m !! self = Some semacode ->
  store_ok m semacode s ->
  data s = NULL ->
  message_ok m s (rs_ptr r) cstr spare rest ->
  1 <= rs_len r <= INT_MAX ->
  (let msg' := cstr ++ SPACE :: NUL :: rest in
   let wh := iec16022init 0 0 msg' in
   iec16022ecc200 wh.1 wh.2 (wrap_int (wrap_int (rs_len r) + 1)) msg' = Some o) ->
  symbol_ok o ->
  exists m' s' rows,
    semacode_encode self (T_STRING r) m = Ok (Array rows) m' /\
    rdata m' !! self = Some semacode /\
    encoded m' self semacode s' (out_grid o) /\
    semacode_data self m' = Ok (Array rows) m'.
Proof.
  intros Hself Hok Hd0 Hmsg Hlen Hsome (HW & HH & Hsz & Hmax).
  assert (Hl : 1 <= wrap_int (rs_len r))
    by (rewrite wrap_int_id; unfold INT_MAX in *; lia).
  destruct (encode_string_run m semacode s _ (rs_ptr r) cstr spare rest Hok Hmsg Hl)
    as (m1 & Hrun & _ & _ & Hrd & _ & _ & Hres).
  cbv zeta in Hsome, Hres. rewrite Hsome in Hres.
  destruct Hres as (grid & enc & Hg & _ & _ & _ & _ & Hs' & Hgrid & _).
  destruct Hok as [Hp Hs _ _ _].
  set (s' := mk_semacode (out_W o) (out_H o) (out_len o) (out_max o)
                         (out_ecc o) enc grid) in *.
  set (m2 := mk_memory (heap m1) (<[self := semacode]> (rdata m1))
                       (released m1) (calls m1)).
  assert (He2 : encoded m2 self semacode s' (out_grid o)).
  { split; try done. unfold m2. simpl. by rewrite lookup_insert_eq. }
  eexists m2, s', _. split.
  - unfold semacode_encode, Data_Get_Struct. simpl.
    unfold bind at 1. rewrite Hself.
    rewrite (bind_Ok _ _ _ _ _ (load_struct_live m semacode s Hp Hs)).
    rewrite (bind_Ok _ _ m tt m).
    2:{ rewrite guarded_free, Hd0. unfold free. by rewrite decide_True. }
    rewrite (bind_Ok _ _ m (rs_len r, T_STRING r) m) by reflexivity.
    rewrite (bind_Ok _ _ m (rs_ptr r, T_STRING r) m) by reflexivity. cbn [fst snd].
    rewrite (bind_Ok _ _ _ _ _ Hrun).
    rewrite (bind_Ok _ _ m1 tt m2) by reflexivity.
    exact (semacode_grid_encoded _ _ _ _ _ He2).
  - split; [by destruct He2|]. split; [done|].
    exact (semacode_data_encoded _ _ _ _ _ He2).
Qed.

(** X13. The [encode] method on an empty String and a store without bits and
    of height zero (a new store): it raises nothing and returns an empty
    array, no block is touched, but the object is left without its record:
    DATA_PTR is NULL, the record stays live and unreachable from the object,
    [to_s] returns [nil], and [data] and the integer accessors read through
    the NULL pointer. *)
Theorem semacode_encode_empty_detaches m self semacode s r :
  rdata m !! self = Some semacode -> semacode <> NULL ->
  heap m !! semacode = Some (Live (Struct s)) ->
  data s = NULL -> height s = 0 ->
  wrap_int (rs_len r) < 1 ->
  exists m',
    semacode_encode self (T_STRING r) m = Ok (Array []) m' /\
    heap m' = heap m /\ released m' = released m /\
    rdata m' !! self = Some NULL /\
    semacode_to_s self m' = Ok Qnil m' /\
    semacode_data self m' = Fault NullDeref m' /\
    forall field, int_accessor field self m' = Fault NullDeref m'.
Proof.
  intros Hself Hp Hs Hd0 Hh0 Hlen.
  set (m2 := mk_memory (heap m) (<[self := NULL]> (rdata m)) (released m) (calls m)).
  assert (Hs2 : rdata m2 !! self = Some NULL)
    by (unfold m2; simpl; by rewrite lookup_insert_eq).
  exists m2. split; [|repeat split; try done].
  - unfold semacode_encode, Data_Get_Struct. simpl.
    unfold bind at 1. rewrite Hself.
    rewrite (bind_Ok _ _ _ _ _ (load_struct_live m semacode s Hp Hs)).
    rewrite (bind_Ok _ _ m tt m).
    2:{ rewrite guarded_free, Hd0. unfold free. by rewrite decide_True. }
    rewrite (bind_Ok _ _ m (rs_len r, T_STRING r) m) by reflexivity.
    rewrite (bind_Ok _ _ m (rs_ptr r, T_STRING r) m) by reflexivity. cbn [fst snd].
    rewrite (bind_Ok _ _ _ _ _ (encode_string_rejects m semacode _ _ Hlen)).
    rewrite (bind_Ok _ _ m tt m2) by reflexivity.
    unfold semacode_grid.
    rewrite (bind_Ok _ _ _ _ _ (load_struct_live m2 semacode s Hp Hs)).
    rewrite Hh0. reflexivity.
  - apply (semacode_to_s_no_bits m2 self NULL s Hs2); [done|by left].
  - unfold semacode_data, Data_Get_Struct. unfold bind at 1. rewrite Hs2.
    apply bind_Fault. unfold load_struct. apply bind_Fault.
    unfold load. by rewrite decide_True.
  - intros field. unfold int_accessor, Data_Get_Struct.
    unfold bind at 1. rewrite Hs2.
    apply bind_Fault. unfold load_struct. apply bind_Fault.
    unfold load. by rewrite decide_True.
Qed.

(** X14. The [encode] method with an argument that answers [to_s] but does
    not convert to a String: the TypeError of the conversion is raised after
    the method has released the bits, so an encoded store is left with a
    record that still points to the released block. *)
Theorem semacode_encode_type_error_after_release m self semacode s bits :
  encoded m self semacode s bits ->
  exists m',
    semacode_encode self (T_OBJECT true None) m
      = Raise (TypeError "can't convert into String") m' /\
    heap m' !! data s = Some (Freed (Bytes bits)) /\
    heap m' !! semacode = Some (Live (Struct s)) /\
    released m' = data s :: released m /\
    rdata m' = rdata m.
Proof.
  intros [Hself Hp Hs Hd Hb _ _ _ _].
  assert (Hsd : semacode <> data s) by congruence.
  exists (release (data s) m). split.
  - unfold semacode_encode, Data_Get_Struct. simpl.
    unfold bind at 1. rewrite Hself.
    rewrite (bind_Ok _ _ _ _ _ (load_struct_live m semacode s Hp Hs)).
    rewrite (bind_Ok _ _ m _ _
      (eq_trans (guarded_free _ _) (free_owned m (data s) (or_intror (ex_intro _ bits Hb))))).
    reflexivity.
  - split; [by apply release_lookup|].
    split; [by rewrite release_lookup_ne|].
    split; [|apply release_rdata].
    rewrite release_released by eauto. unfold freed_of. by rewrite decide_False.
Qed.

End EncodeMethod.

(** ** The codewords view and the release of a store *)

(** X16. On a store with codewords the [encoding] accessor returns the bytes
    of the codewords block up to its first NUL, and no more: what follows a
    NUL byte of the block is not returned. *)
Theorem semacode_encoded_c_string m self semacode s cstr rest :
  rdata m !! self = Some semacode -> semacode <> NULL ->
  heap m !! semacode = Some (Live (Struct s)) ->
  encoding s <> NULL ->
  heap m !! encoding s = Some (Live (Bytes (cstr ++ NUL :: rest))) ->
  Forall (fun c => c <> NUL) cstr ->
  semacode_encoded self m = Ok (Str cstr) m.
Proof.
  intros Hself Hp Hs He Hb Hc. unfold semacode_encoded, Data_Get_Struct.
  unfold bind at 1. rewrite Hself.
  rewrite (bind_Ok _ _ _ _ _ (load_struct_live m semacode s Hp Hs)).
  unfold rb_str_new2. rewrite decide_False by done.
  rewrite (bind_Ok _ _ _ _ _ (load_bytes_live m (encoding s) _ He Hb)).
  rewrite strlen_c_string by done. by rewrite take_app_length.
Qed.

(** X17. semacode_free on any well-formed store: it releases the record and
    the bits, and the codewords only when the store has bits; every other
    block and every object's DATA_PTR is left as it was, so the object still
    points to the released record.  A store with codewords but no bits keeps
    its codewords block live. *)
Theorem semacode_free_releases m semacode s :
  store_ok m semacode s ->
  exists m',
    semacode_free semacode m = Ok tt m' /\
    released m'
      = semacode :: freed_of (data s)
          ++ (if decide (data s = NULL) then [] else freed_of (encoding s))
          ++ released m /\
    heap m' !! semacode
      = Some (Freed (Struct (bzero_semacode sizeof_pointer s))) /\
    (data s = NULL -> forall b, heap m !! encoding s = Some b ->
                                heap m' !! encoding s = Some b) /\
    (forall q, q <> semacode -> q <> data s -> q <> encoding s ->
               heap m' !! q = heap m !! q) /\
    rdata m' = rdata m.
Proof.
  intros Hok.
  assert (Hsd : semacode <> data s /\ semacode <> encoding s).
  { destruct Hok as [Hp Hs Hd He _]. split; intros Heq.
    - destruct Hd as [Hd|[bs Hd]]; congruence.
    - destruct He as [He|[bs He]]; congruence. }
  destruct Hsd as [Hsd Hse]. destruct Hok as [Hp Hs Hd He Hde].
  unfold semacode_free. rewrite decide_True by done.
  rewrite (bind_Ok _ _ _ _ _ (load_struct_live m semacode s Hp Hs)).
  set (m1 := if decide (data s = NULL) then m else release (encoding s) m).
  assert (H1 : (if decide (data s <> NULL) then free (encoding s) else ret tt) m
               = Ok tt m1).
  { unfold m1. destruct (decide (data s = NULL)) as [Hd0|Hdn].
    - by rewrite decide_False by (intros Hn; by apply Hn).
    - rewrite decide_True by done. by apply free_owned. }
  rewrite (bind_Ok _ _ _ _ _ H1).
  assert (Hne1 : forall q, q <> encoding s -> heap m1 !! q = heap m !! q).
  { intros q Hq. unfold m1.
    destruct (decide (data s = NULL)); [done|]. by apply release_lookup_ne. }
  assert (Hs1 : heap m1 !! semacode = Some (Live (Struct s)))
    by (by rewrite Hne1).
  assert (Hd1 : data s = NULL \/ exists bs, heap m1 !! data s = Some (Live (Bytes bs))).
  { destruct Hd as [?|[bs Hb]]; [by left|]. right. exists bs.
    destruct Hde as [?|Hde]; [|by rewrite Hne1].
    unfold m1. by rewrite decide_True. }
  rewrite (bind_Ok _ _ _ _ _ (load_struct_live m1 semacode s Hp Hs1)).
  rewrite (bind_Ok _ _ _ _ _ (free_owned m1 (data s) Hd1)).
  set (m2 := release (data s) m1).
  assert (Hs2 : heap m2 !! semacode = Some (Live (Struct s)))
    by (unfold m2; by rewrite release_lookup_ne).
  rewrite (bind_Ok _ _ _ _ _ (load_struct_live m2 semacode s Hp Hs2)).
  rewrite (bind_Ok _ _ _ _ _ (store_struct_live m2 semacode s _ Hp Hs2)).
  set (m3 := set_heap _ m2).
  assert (Hs3 : heap m3 !! semacode
                = Some (Live (Struct (bzero_semacode sizeof_pointer s))))
    by (unfold m3; simpl; by rewrite lookup_insert_eq).
  unfold free. rewrite decide_False by done. rewrite Hs3.
  eexists. split; [reflexivity|]. simpl.
  split.
  { f_equal. unfold m2. rewrite release_released by done. f_equal.
    unfold m1. destruct (decide (data s = NULL)); [done|].
    by apply release_released. }
  split; [by rewrite lookup_insert_eq|].
  split.
  { intros Hd0 b Hb. rewrite !lookup_insert_ne by done.
    unfold m2, m1. rewrite Hd0, release_NULL. by rewrite decide_True. }
  split.
  { intros q H1' H2' H3'. rewrite !lookup_insert_ne by done.
    unfold m2. rewrite release_lookup_ne by done. by apply Hne1. }
  unfold m2, m1. rewrite release_rdata.
  destruct (decide (data s = NULL)); [done|apply release_rdata].
Qed.

(** ** The constructor where nothing is encoded *)

Section Unencoded.
Context `{Codec}.

(** X18. [Encoder.new] on an empty String does not fail: it returns a new
    object whose store is empty, with nothing released, no codec call and no
    block touched but the new record; its views are [nil]. *)
Theorem Encoder_new_empty_string m r :
  wrap_int (rs_len r) < 1 ->
  exists self semacode m',
    Encoder_new (T_STRING r) m = Ok (Object self) m' /\
    rdata m !! self = None /\ heap m !! semacode = None /\
    rdata m' !! self = Some semacode /\
    heap m' = <[semacode := Live (Struct zero_semacode)]> (heap m) /\
    released m' = released m /\ calls m' = calls m /\
    semacode_data self m' = Ok Qnil m' /\
    semacode_to_s self m' = Ok Qnil m'.
Proof.
  intros Hlen.
  destruct (semacode_allocate_run m)
    as (self & p & m' & Hrun & Hself & Hp & Hn & Hrd & Hh & Hrel & Hcalls).
  assert (Hs : rdata m' !! self = Some p) by (by rewrite Hrd, lookup_insert_eq).
  assert (Hz : heap m' !! p = Some (Live (Struct zero_semacode)))
    by (by rewrite Hh, lookup_insert_eq).
  exists self, p, m'. split.
  { unfold Encoder_new. rewrite (bind_Ok _ _ _ _ _ Hrun).
    exact (semacode_init_rejects m' self p r Hs Hlen). }
  repeat split; try done.
  - by apply (semacode_data_no_bits _ _ p zero_semacode).
  - apply (semacode_to_s_no_bits _ _ p zero_semacode); auto.
Qed.

(** X19. After a constructor call for which the codec finds no encoding, the
    object has no symbol, and both views are [nil], but [width] and [height]
    report the size iec16022init chose for the padded message, and the other
    counts are zero. *)
Theorem semacode_init_failed_dimensions m self semacode s r cstr spare rest :
  rdata m !! self = Some semacode ->
  store_ok m semacode s ->
  message_ok m s (rs_ptr r) cstr spare rest ->
  1 <= rs_len r <= INT_MAX ->
  (let msg' := cstr ++ SPACE :: NUL :: rest in
   let wh := iec16022init 0 0 msg' in
   iec16022ecc200 wh.1 wh.2 (wrap_int (wrap_int (rs_len r) + 1)) msg' = None) ->
  exists m',
    semacode_init self (T_STRING r) m = Ok (Object self) m' /\
    semacode_data self m' = Ok Qnil m' /\
    semacode_to_s self m' = Ok Qnil m' /\
    semacode_width self m'
      = Ok (Fixnum (iec16022init 0 0 (cstr ++ SPACE :: NUL :: rest)).1) m' /\
    semacode_height self m'
      = Ok (Fixnum (iec16022init 0 0 (cstr ++ SPACE :: NUL :: rest)).2) m' /\
    semacode_raw_encoded_length self m' = Ok (Fixnum 0) m' /\
    semacode_symbol_size self m' = Ok (Fixnum 0) m' /\
    semacode_ecc_bytes self m' = Ok (Fixnum 0) m'.
Proof.
  intros Hself Hok Hmsg Hlen Hnone.
  assert (Hl : 1 <= wrap_int (rs_len r))
    by (rewrite wrap_int_id; unfold INT_MAX in *; lia).
  destruct (encode_string_run m semacode s _ (rs_ptr r) cstr spare rest Hok Hmsg Hl)
    as (m' & Hrun & _ & _ & Hrd & _ & _ & Hres).
  cbv zeta in Hnone, Hres. rewrite Hnone in Hres. destruct Hres as [Hs' _].
  assert (Hp : semacode <> NULL) by (by destruct Hok).
  assert (Hsf : rdata m' !! self = Some semacode) by (by rewrite Hrd).
  exists m'. split; [exact (semacode_init_run _ _ _ _ _ _ Hself Hrun)|].
  split; [exact (semacode_data_no_bits _ _ semacode _ Hsf Hp Hs' eq_refl)|].
  split.
  { exact (semacode_to_s_no_bits _ _ semacode _ Hsf (fun _ => Hs')
             (or_intror eq_refl)). }
  split; [exact (int_accessor_run width m' self semacode _ Hsf Hp Hs')|].
  split; [exact (int_accessor_run height m' self semacode _ Hsf Hp Hs')|].
  split; [exact (int_accessor_run raw_encoded_length m' self semacode _ Hsf Hp Hs')|].
  split; [exact (int_accessor_run symbol_capacity m' self semacode _ Hsf Hp Hs')|].
  exact (int_accessor_run ecc_bytes m' self semacode _ Hsf Hp Hs').
Qed.

End Unencoded.

(** ** Instances in the scenario *)

Lemma semacode_length_modules_witness :
  encoded memory_A 0%N 4%N store_A bits_A /\
  semacode_length 0%N memory_A = Ok (Fixnum 6) memory_A /\
  length bits_A = 6%nat.
Proof.
  split; [exact memory_A_encoded|].
  exact (semacode_length_modules memory_A 0%N 4%N store_A bits_A memory_A_encoded).
Defined.

Lemma grid_round_trip_witness :
  encoded memory_A 0%N 4%N store_A bits_A /\
  exists rows,
    semacode_data 0%N memory_A = Ok (Array rows) memory_A /\
    concat (cells_of <$> rev rows) = truths bits_A.
Proof.
  split; [exact memory_A_encoded|].
  exact (grid_round_trip memory_A 0%N 4%N store_A bits_A memory_A_encoded).
Defined.

Lemma to_s_round_trip_witness :
  encoded memory_A 0%N 4%N store_A bits_A /\
  exists str,
    semacode_to_s 0%N memory_A = Ok (Str str) memory_A /\
    concat (rev (groups_of str [])) = digits bits_A.
Proof.
  split; [exact memory_A_encoded|].
  exact (to_s_round_trip memory_A 0%N 4%N store_A bits_A memory_A_encoded).
Defined.

Lemma semacode_to_s_length_witness :
  encoded memory_A 0%N 4%N store_A bits_A /\
  exists str,
    semacode_to_s 0%N memory_A = Ok (Str str) memory_A /\
    length str = 8%nat /\
    length (filter (fun ch => ch = ","%char) str) = 2%nat /\
    last str = Some ","%char.
Proof.
  split; [exact memory_A_encoded|].
  exact (semacode_to_s_length memory_A 0%N 4%N store_A bits_A memory_A_encoded).
Defined.

Lemma symbol_A_ok : symbol_ok symbol_A.
Proof. repeat split; done. Defined.

Lemma Encoder_new_encodes_witness :
  heap memory_new !! 1%N = Some (Live (Bytes (["A"%char] ++ NUL :: NUL :: []))) /\
  symbol_ok symbol_A /\
  exists self semacode s' m',
    @Encoder_new demo_codec string_A memory_new = Ok (Object self) m' /\
    rdata memory_new !! self = None /\
    encoded m' self semacode s' (out_grid symbol_A) /\
    heap m' !! encoding s' = Some (Live (Bytes (out_encoding symbol_A))) /\
    semacode_width self m' = Ok (Fixnum 3) m' /\
    semacode_height self m' = Ok (Fixnum 2) m' /\
    semacode_raw_encoded_length self m' = Ok (Fixnum 2) m' /\
    semacode_symbol_size self m' = Ok (Fixnum 3) m' /\
    semacode_ecc_bytes self m' = Ok (Fixnum 5) m'.
Proof.
  split; [vm_compute; reflexivity|]. split; [exact symbol_A_ok|].
  exact (@Encoder_new_encodes demo_codec memory_new (mk_rstring 1 1%N)
           ["A"%char] NUL [] symbol_A ltac:(done) ltac:(vm_compute; reflexivity)
           ltac:(repeat constructor; done) ltac:(done) eq_refl symbol_A_ok).
Defined.

Lemma encode_string_keeps_store_witness :
  store_ok memory_A 4%N store_A /\
  message_ok memory_A store_A 2%N ["B"%char] NUL [] /\
  exists m' s',
    @encode_string demo_codec 4%N 1 2%N memory_A = Ok 4%N m' /\
    store_ok m' 4%N s'.
Proof.
  split; [exact memory_A_store_ok|]. split; [exact memory_A_string_B|].
  exact (@encode_string_keeps_store demo_codec memory_A 4%N store_A 1 2%N
           ["B"%char] NUL [] memory_A_store_ok memory_A_string_B ltac:(lia)).
Defined.

Lemma encode_string_replaces_buffers_witness :
  store_ok memory_A 4%N store_A /\
  message_ok memory_A store_A 2%N ["B"%char] NUL [] /\
  exists m' grid enc,
    @encode_string demo_codec 4%N 1 2%N memory_A = Ok 4%N m' /\
    heap m' !! 4%N = Some (Live (Struct (mk_semacode 3 2 2 3 5 enc grid))) /\
    grid <> NULL /\ enc <> NULL /\ grid <> enc /\
    heap memory_A !! grid = None /\ heap memory_A !! enc = None /\
    heap m' !! grid = Some (Live (Bytes bits_A)) /\
    heap m' !! enc = Some (Live (Bytes ["A"; "B"; "000"]%char)) /\
    released m' = [6%N; 5%N] /\
    (forall p, p ∈ [5%N; 6%N] -> exists c, heap m' !! p = Some (Freed c)).
Proof.
  split; [exact memory_A_store_ok|]. split; [exact memory_A_string_B|].
  exact (@encode_string_replaces_buffers demo_codec memory_A 4%N store_A 1 2%N
           ["B"%char] NUL [] symbol_A memory_A_store_ok memory_A_string_B
           ltac:(lia) eq_refl).
Defined.

Lemma encode_string_hints_from_zero_witness :
  store_ok memory_A 4%N store_A /\
  message_ok memory_A store_A 2%N ["B"%char] NUL [] /\
  exists m' c,
    @encode_string demo_codec 4%N 1 2%N memory_A = Ok 4%N m' /\
    calls m' = c :: calls memory_A /\
    (call_W c, call_H c) = (3, 2).
Proof.
  split; [exact memory_A_store_ok|]. split; [exact memory_A_string_B|].
  exact (@encode_string_hints_from_zero demo_codec memory_A 4%N store_A 1 2%N
           ["B"%char] NUL [] memory_A_store_ok memory_A_string_B ltac:(lia)).
Defined.

Lemma encode_string_frame_witness :
  store_ok memory_A 4%N store_A /\
  message_ok memory_A store_A 2%N ["B"%char] NUL [] /\
  exists m',
    @encode_string demo_codec 4%N 1 2%N memory_A = Ok 4%N m' /\
    rdata m' = rdata memory_A /\
    forall q b,
      heap memory_A !! q = Some b ->
      q <> 4%N -> q <> 2%N -> q <> 5%N -> q <> 6%N ->
      heap m' !! q = Some b.
Proof.
  split; [exact memory_A_store_ok|]. split; [exact memory_A_string_B|].
  exact (@encode_string_frame demo_codec memory_A 4%N store_A 1 2%N
           ["B"%char] NUL [] memory_A_store_ok memory_A_string_B ltac:(lia)).
Defined.

Lemma semacode_encode_first_encoding_witness :
  rdata memory_new !! 0%N = Some 4%N /\
  store_ok memory_new 4%N zero_semacode /\
  message_ok memory_new zero_semacode 1%N ["A"%char] NUL [] /\
  exists m' s' rows,
    @semacode_encode demo_codec 0%N string_A memory_new = Ok (Array rows) m' /\
    rdata m' !! 0%N = Some 4%N /\
    encoded m' 0%N 4%N s' bits_A /\
    semacode_data 0%N m' = Ok (Array rows) m'.
Proof.
  split; [vm_compute; reflexivity|].
  split; [exact memory_new_store_ok|]. split; [exact memory_new_string_A|].
  exact (@semacode_encode_first_encoding demo_codec memory_new 0%N 4%N
           zero_semacode (mk_rstring 1 1%N) ["A"%char] NUL [] symbol_A
           ltac:(vm_compute; reflexivity) memory_new_store_ok eq_refl
           memory_new_string_A ltac:(done) eq_refl symbol_A_ok).
Defined.

Lemma semacode_encode_empty_detaches_witness :
  rdata memory_new !! 0%N = Some 4%N /\
  heap memory_new !! 4%N = Some (Live (Struct zero_semacode)) /\
  exists m',
    @semacode_encode demo_codec 0%N string_empty memory_new = Ok (Array []) m' /\
    heap m' = heap memory_new /\ released m' = released memory_new /\
    rdata m' !! 0%N = Some NULL /\
    semacode_to_s 0%N m' = Ok Qnil m' /\
    semacode_data 0%N m' = Fault NullDeref m' /\
    forall field, int_accessor field 0%N m' = Fault NullDeref m'.
Proof.
  split; [vm_compute; reflexivity|]. split; [vm_compute; reflexivity|].
  exact (@semacode_encode_empty_detaches demo_codec memory_new 0%N 4%N
           zero_semacode (mk_rstring 0 3%N)
           ltac:(vm_compute; reflexivity) ltac:(done)
           ltac:(vm_compute; reflexivity) eq_refl eq_refl ltac:(done)).
Defined.

Lemma semacode_encode_type_error_after_release_witness :
  encoded memory_A 0%N 4%N store_A bits_A /\
  exists m',
    @semacode_encode demo_codec 0%N (T_OBJECT true None) memory_A
      = Raise (TypeError "can't convert into String") m' /\
    heap m' !! 5%N = Some (Freed (Bytes bits_A)) /\
    heap m' !! 4%N = Some (Live (Struct store_A)) /\
    released m' = 5%N :: released memory_A /\
    rdata m' = rdata memory_A.
Proof.
  split; [exact memory_A_encoded|].
  exact (@semacode_encode_type_error_after_release demo_codec memory_A 0%N 4%N
           store_A bits_A memory_A_encoded).
Defined.

Lemma semacode_encoded_c_string_witness :
  heap memory_A !! 6%N = Some (Live (Bytes (["A"; "B"]%char ++ NUL :: []))) /\
  semacode_encoded 0%N memory_A = Ok (Str ["A"; "B"]%char) memory_A.
Proof.
  split; [vm_compute; reflexivity|].
  exact (semacode_encoded_c_string memory_A 0%N 4%N store_A ["A"; "B"]%char []
           ltac:(vm_compute; reflexivity) ltac:(done)
           ltac:(vm_compute; reflexivity) ltac:(done)
           ltac:(vm_compute; reflexivity) ltac:(repeat constructor; done)).
Defined.

Lemma semacode_free_releases_witness :
  store_ok memory_A 4%N store_A /\
  exists m',
    semacode_free 4%N memory_A = Ok tt m' /\
    released m' = [4%N; 5%N; 6%N] /\
    heap m' !! 4%N = Some (Freed (Struct (mk_semacode 0 0 2 3 5 6%N 5%N))) /\
    (data store_A = NULL -> forall b, heap memory_A !! 6%N = Some b ->
                                      heap m' !! 6%N = Some b) /\
    (forall q, q <> 4%N -> q <> 5%N -> q <> 6%N ->
               heap m' !! q = heap memory_A !! q) /\
    rdata m' = rdata memory_A.
Proof.
  split; [exact memory_A_store_ok|].
  exact (semacode_free_releases memory_A 4%N store_A memory_A_store_ok).
Defined.

Lemma Encoder_new_empty_string_witness :
  wrap_int 0 < 1 /\
  exists self semacode m',
    @Encoder_new demo_codec string_empty memory_new = Ok (Object self) m' /\
    rdata memory_new !! self = None /\ heap memory_new !! semacode = None /\
    rdata m' !! self = Some semacode /\
    heap m' = <[semacode := Live (Struct zero_semacode)]> (heap memory_new) /\
    released m' = released memory_new /\ calls m' = calls memory_new /\
    semacode_data self m' = Ok Qnil m' /\
    semacode_to_s self m' = Ok Qnil m'.
Proof.
  split; [done|].
  exact (@Encoder_new_empty_string demo_codec memory_new (mk_rstring 0 3%N)
           ltac:(done)).
Defined.

Lemma semacode_init_failed_dimensions_witness :
  rdata memory_new !! 0%N = Some 4%N /\
  store_ok memory_new 4%N zero_semacode /\
  message_ok memory_new zero_semacode 1%N ["A"%char] NUL [] /\
  exists m',
    @semacode_init failing_codec 0%N string_A memory_new = Ok (Object 0%N) m' /\
    semacode_data 0%N m' = Ok Qnil m' /\
    semacode_to_s 0%N m' = Ok Qnil m' /\
    semacode_width 0%N m' = Ok (Fixnum 3) m' /\
    semacode_height 0%N m' = Ok (Fixnum 2) m' /\
    semacode_raw_encoded_length 0%N m' = Ok (Fixnum 0) m' /\
    semacode_symbol_size 0%N m' = Ok (Fixnum 0) m' /\
    semacode_ecc_bytes 0%N m' = Ok (Fixnum 0) m'.
Proof.
  split; [vm_compute; reflexivity|].
  split; [exact memory_new_store_ok|]. split; [exact memory_new_string_A|].
  exact (@semacode_init_failed_dimensions failing_codec memory_new 0%N 4%N
           zero_semacode (mk_rstring 1 1%N) ["A"%char] NUL []
           ltac:(vm_compute; reflexivity) memory_new_store_ok
           memory_new_string_A ltac:(done) eq_refl).
Defined.
